(** * GCEWindowsAgent: the reconciliation control loop of [main.go]

    A shallow embedding of [src/GCEWindowsAgent/main.go]: the dispatch of one
    reconciliation cycle ([runUpdate]), the metadata watch loop started by
    [run], the entry point [main] and the helper [containsString], followed
    by the properties of the control loop that the specification states.

    Modelling conventions.
    - What the program does to its environment is recorded as a trace of
      events, each labelled with the goroutine that performed it.
    - What the environment answers (the result of a metadata fetch, the
      state of the context, the content of the override file, the answers
      of the managers, the order in which the goroutines are scheduled) is
      an explicit input.
    - [metadataJSON] and [ini.File] are declared outside [main.go]; they are
      parameters of the development. *)

From Stdlib Require Import Ascii String ZArith Bool Lia List Permutation.
From Stdlib Require Import Strings.Byte.
Import ListNotations.
Local Open Scope Z_scope.
Local Open Scope list_scope.

Set Implicit Arguments.

(** ** Go's [int]

    [webError] is a Go [int]: 64 bits wide on the amd64 Windows images the
    agent is built for.  [webError++] wraps around silently. *)
Module GoInt.
Definition bits : Z := 64.
Definition min_int : Z := - 2 ^ (bits - 1).
Definition max_int : Z := 2 ^ (bits - 1) - 1.
Definition wrap (z : Z) : Z := (z - min_int) mod 2 ^ bits + min_int.
Definition incr (z : Z) : Z := wrap (z + 1).
End GoInt.

(** ** Errors

    A Go [error] is an interface value; [run] inspects its dynamic type
    ([*url.Error], and inside it [*net.DNSError] or [*net.OpError]) and
    [runUpdate] asks [os.IsNotExist].  The constructors are the dynamic
    types that these tests tell apart. *)
Inductive error : Type :=
| url_Error (Op URL : string) (Err : error)
| net_DNSError (Err Name : string)
| net_OpError (Op Net : string)
| os_PathError (Op Path : string) (notExist : bool)
| errorString (s : string).

(** [os.IsNotExist]: a path error whose cause is "file (or path) not found".
    It does not look inside a [*url.Error]. *)
Definition os_IsNotExist (err : error) : bool :=
  match err with
  | os_PathError _ _ notExist => notExist
  | _ => false
  end.

(** A fallible library call: Go's [(value, err)] with [err == nil] or
    [value == nil]. *)
Inductive result (A : Type) : Type :=
| Ok (a : A)
| Err (e : error).
Arguments Err {A} e.

(** Back to the pair of a nilable pointer and a nilable error. *)
Definition goPair {A : Type} (r : result A) : option A * option error :=
  match r with
  | Ok a => (Some a, None)
  | Err e => (None, Some e)
  end.

(** ** Constants of [main.go] *)
Definition configPath : string :=
  "C:\Program Files\Google\Compute Engine\instance_configs.cfg"%string.
Definition regKeyBase : string := "SOFTWARE\Google\ComputeEngine"%string.

(** [time.Second], in nanoseconds ([time.Duration] is an [int64]). *)
Definition time_Second : Z := 1000000000.

(** ** [containsString] *)
Fixpoint containsString (s : string) (ss : list string) : bool :=
  match ss with
  | [] => false
  | a :: ss' => if String.eqb a s then true else containsString s ss'
  end.

(** ** [main]

    What the process does, as the calls [main] makes.  [register] (the
    service shim) and [logger.Fatal] are outside [main.go]: [register] is a
    parameter, and [logger.Fatal] logs and aborts the process, so nothing
    follows it. *)
Inductive processEvent : Type :=
| LoggerInit (name port : string)
| CallRun                          (* [run(ctx)], called by [main] itself *)
| OsExit (code : Z)
| CallRegister (name displayName desc action : string) (r : option error)
| LoggerFatal (err : error).

(** The context of [main] is [context.Background()].  It is never
    cancelled: its [Done()] channel is nil, and a receive from a nil
    channel blocks for ever. *)
Inductive goContext : Type := context_Background.

Definition everDone (ctx : goContext) : bool :=
  match ctx with
  | context_Background => false
  end.

(** [os.Args]: the program name, then the arguments. *)
Definition actionOf (osArgs : list string) : string :=
  if (length osArgs <? 2)%nat then "run"%string else nth 1 osArgs ""%string.

(** The service shim, by name, display name, description and action. *)
Definition serviceShim : Type :=
  string -> string -> string -> string -> option error.

(** [register(ctx, "GCEAgent", "GCEAgent", "", run, action)] *)
Definition registerAgent (register : serviceShim) (action : string)
    : option error :=
  register "GCEAgent"%string "GCEAgent"%string ""%string action.

(** [run(ctx)] returns only after [<-ctx.Done()]: what follows the call
    in [main], [os.Exit(0)], happens only when the context is ever done. *)
Definition main (register : serviceShim) (osArgs : list string)
    : list processEvent :=
  let ctx := context_Background in
  let action := actionOf osArgs in
  LoggerInit "GCEWindowsAgent" "COM1" ::
  if String.eqb action "noservice" then
    CallRun :: (if everDone ctx then [OsExit 0] else [])
  else
    let r := registerAgent register action in
    CallRegister "GCEAgent" "GCEAgent" "" action r ::
    match r with
    | Some err => [LoggerFatal err]
    | None => []
    end.

(** ** Interleaving of goroutines

    [runUpdate] starts one goroutine per manager and waits for all of them.
    A schedule is the list of thread indices that get to perform their next
    event; a choice naming a finished (or absent) thread is skipped, and
    when the schedule is exhausted the remaining threads run to completion,
    which is what [wg.Wait()] waits for. *)
Section Interleave.
Variable A : Type.

Fixpoint pick (i : nat) (ts : list (list A)) : option (A * list (list A)) :=
  match ts with
  | [] => None
  | t :: ts' =>
      match i with
      | O => match t with
             | [] => None
             | a :: t' => Some (a, t' :: ts')
             end
      | S i' => match pick i' ts' with
                | Some (a, ts'') => Some (a, t :: ts'')
                | None => None
                end
      end
  end.

Fixpoint interleave (sched : list nat) (ts : list (list A)) : list A :=
  match sched with
  | [] => concat ts
  | i :: sched' =>
      match pick i ts with
      | Some (a, ts') => a :: interleave sched' ts'
      | None => interleave sched' ts
      end
  end.

(** Interleavings, without reference to a schedule: an interleaving of
    threads that have all finished is empty; otherwise some thread
    performs its next event. *)
Inductive interleaving : list (list A) -> list A -> Prop :=
| interleaving_done ts :
    (forall t, In t ts -> t = []) -> interleaving ts []
| interleaving_step before a t after tr :
    interleaving (before ++ t :: after) tr ->
    interleaving (before ++ (a :: t) :: after) (a :: tr).
End Interleave.

(** ** The agent *)
Section Agent.
(** The metadata snapshot type and its zero value
    ([var oldMetadata metadataJSON]). *)
Context {metadataJSON : Type}.
Variable zeroMetadata : metadataJSON.
(** [ini.File], of the library [go-ini]. *)
Context {iniFile : Type}.

(** *** Managers

    [addresses], [accounts] and [diagnostics] are built by struct literals
    from [oldMetadata], [newMetadata] and [config]; the fourth manager is
    the value of the call [newWsfcManager(newMetadata, cfg)].  The
    snapshots are passed by pointer; every goroutine that reads them has
    finished ([wg.Wait()]) before [run] overwrites [oldMetadata], so the
    pointers are modelled by the values they point to.  [config] is a
    [*ini.File] that may be nil. *)
Inductive manager : Type :=
| addresses (oldMetadata newMetadata : metadataJSON) (config : option iniFile)
| accounts (oldMetadata newMetadata : metadataJSON) (config : option iniFile)
| diagnostics (oldMetadata newMetadata : metadataJSON) (config : option iniFile)
| newWsfcManager (newMetadata : metadataJSON) (config : option iniFile).

Inductive domain : Type := Addresses | Accounts | Wsfc | Diagnostics.

Definition domainOf (m : manager) : domain :=
  match m with
  | addresses _ _ _ => Addresses
  | accounts _ _ _ => Accounts
  | diagnostics _ _ _ => Diagnostics
  | newWsfcManager _ _ => Wsfc
  end.

(** What an instance was constructed from. *)
Definition oldMetadataOf (m : manager) : option metadataJSON :=
  match m with
  | addresses o _ _ | accounts o _ _ | diagnostics o _ _ => Some o
  | newWsfcManager _ _ => None
  end.

Definition newMetadataOf (m : manager) : metadataJSON :=
  match m with
  | addresses _ n _ | accounts _ n _ | diagnostics _ n _ => n
  | newWsfcManager n _ => n
  end.

Definition configOf (m : manager) : option iniFile :=
  match m with
  | addresses _ _ c | accounts _ _ c | diagnostics _ _ c => c
  | newWsfcManager _ c => c
  end.

(** The instance of a domain for a cycle. *)
Definition build (d : domain) (newMetadata oldMetadata : metadataJSON)
    (cfg : option iniFile) : manager :=
  match d with
  | Addresses => addresses oldMetadata newMetadata cfg
  | Accounts => accounts oldMetadata newMetadata cfg
  | Wsfc => newWsfcManager newMetadata cfg
  | Diagnostics => diagnostics oldMetadata newMetadata cfg
  end.

(** [[]manager{addressMgr, acctMgr, wsfcMgr, diagMgr}] *)
Definition domains : list domain := [Addresses; Accounts; Wsfc; Diagnostics].

(** The position of a domain in that list. *)
Definition indexOf (d : domain) : nat :=
  match d with
  | Addresses => 0
  | Accounts => 1
  | Wsfc => 2
  | Diagnostics => 3
  end.

Definition managers (newMetadata oldMetadata : metadataJSON)
    (cfg : option iniFile) : list manager :=
  map (fun d => build d newMetadata oldMetadata cfg) domains.

(** *** Events and traces *)
Inductive goroutine : Type :=
| Main                 (* the goroutine that called [run] *)
| Watcher              (* the goroutine started by [run] *)
| Worker (d : domain). (* a goroutine started by [runUpdate] *)

Inductive event : Type :=
| WatchMetadata (r : result metadataJSON) (* [watchMetadata(ctx)] returned *)
| CtxDone (done : bool)                   (* the [select] on [ctx.Done()] *)
| LogInfo (msg : string)                  (* [logger.Info], [logger.Infof] *)
| LogErrorMsg (msg : string)              (* [logger.Error] of a string *)
| LogError (err : error)                  (* [logger.Error(err)] *)
| Sleep (d : Z)                           (* [time.Sleep(d)] *)
| CallDisabled (m : manager) (r : bool)   (* [m.disabled()] returned [r] *)
| CallDiff (m : manager) (r : bool)       (* [m.diff()] returned [r] *)
| CallSet (m : manager) (r : option error). (* [m.set()] returned [r] *)

Definition trace : Type := list (goroutine * event).

Definition tagged (g : goroutine) (evs : list event) : trace := map (pair g) evs.

Definition domain_eqb (a b : domain) : bool :=
  match a, b with
  | Addresses, Addresses | Accounts, Accounts
  | Wsfc, Wsfc | Diagnostics, Diagnostics => true
  | _, _ => false
  end.

Definition goroutine_eqb (a b : goroutine) : bool :=
  match a, b with
  | Main, Main | Watcher, Watcher => true
  | Worker d, Worker d' => domain_eqb d d'
  | _, _ => false
  end.

(** The events of one goroutine, in the order they happened. *)
Definition eventsOf (g : goroutine) (t : trace) : list event :=
  map snd (filter (fun x => goroutine_eqb (fst x) g) t).

Definition isLog (ev : event) : bool :=
  match ev with
  | LogInfo _ | LogErrorMsg _ | LogError _ => true
  | _ => false
  end.

Definition isCtxDone (ev : event) : bool :=
  match ev with
  | CtxDone _ => true
  | _ => false
  end.

Definition isManagerCall (ev : event) : bool :=
  match ev with
  | CallDisabled _ _ | CallDiff _ _ | CallSet _ _ => true
  | _ => false
  end.

(** The log entries of a trace. *)
Definition logsOf (t : trace) : trace := filter (fun x => isLog (snd x)) t.

(** The manager an event is a call on. *)
Definition calledOn (ev : event) : option manager :=
  match ev with
  | CallDisabled m _ | CallDiff m _ | CallSet m _ => Some m
  | _ => None
  end.

(** *** The environment of one cycle

    The managers' implementations, the file system and the parser of
    the [go-ini] library are outside [main.go].  Every manager method is
    called at most once per cycle, so the answers of a cycle are functions
    of the instance. *)
Record world : Type := {
  ioutil_ReadFile : string -> result (list byte);
  ini_InsensitiveLoad : list byte -> result iniFile;
  mgr_disabled : manager -> bool;
  mgr_diff : manager -> bool;
  mgr_set : manager -> option error;
  schedule : list nat
}.

(** *** [logStatus] *)
Definition logStatus (name : string) (disabled : bool) : list event :=
  let status := if disabled then "disabled"%string else "enabled"%string in
  [LogInfo ("GCE " ++ name ++ " manager status: " ++ status)%string].

(** *** [parseConfig] *)
Definition parseConfig (w : world) (file : string)
    : option iniFile * option error :=
  match ioutil_ReadFile w file with
  | Err err => (None, Some err)
  | Ok d => goPair (ini_InsensitiveLoad w d)
  end.

(** [ini.InsensitiveLoad([]byte{})], error dropped. *)
Definition emptyConfig (w : world) : option iniFile :=
  fst (goPair (ini_InsensitiveLoad w [])).

(** The first lines of [runUpdate]: what is logged and the configuration
    the managers get. *)
Definition loadConfig (w : world) : list event * option iniFile :=
  let '(cfg, err) := parseConfig w configPath in
  let logs :=
    match err with
    | Some e => if negb (os_IsNotExist e) then [LogError e] else []
    | None => []
    end in
  let cfg :=
    match cfg with
    | None => emptyConfig w
    | Some _ => cfg
    end in
  (logs, cfg).

(** The body of the goroutine that [runUpdate] starts for [mgr]. *)
Definition worker (w : world) (mgr : manager) : list event :=
  let d := mgr_disabled w mgr in
  CallDisabled mgr d ::
  if d then [] else
  let c := mgr_diff w mgr in
  CallDiff mgr c ::
  if negb c then [] else
  let r := mgr_set w mgr in
  CallSet mgr r ::
  match r with
  | Some err => [LogError err]
  | None => []
  end.

Definition workers (w : world) (ms : list manager) : list trace :=
  map (fun mgr => tagged (Worker (domainOf mgr)) (worker w mgr)) ms.

(** *** [runUpdate] *)
Definition runUpdate (newMetadata oldMetadata : metadataJSON) (w : world)
    : trace :=
  let '(logs, cfg) := loadConfig w in
  tagged Watcher logs ++
  interleave (schedule w) (workers w (managers newMetadata oldMetadata cfg)).

(** *** The loop of the goroutine started by [run] *)
Record loopState : Type := {
  oldMetadata : metadataJSON;
  webError : Z
}.

(** What one iteration receives: the result of [watchMetadata], whether
    [ctx.Done()] is closed when the [select] looks at it, and the
    environment of the cycle.  [watchMetadata] is declared outside
    [main.go]; it returns a snapshot or an error. *)
Record tick : Type := {
  fetched : result metadataJSON;
  ctxDone : bool;
  env : world
}.

Definition dnsHint : string :=
  "DNS error when requesting metadata, check DNS settings and ensure metadata.internal.google is setup in your hosts file."%string.
Definition networkHint : string :=
  "Network error when requesting metadata, make sure your instance has an active network and can reach the metadata server."%string.

(** The hints logged before the raw error: the two type assertions on
    [urlErr.Err]. *)
Definition fetchHints (err : error) : list event :=
  match err with
  | url_Error _ _ urlErr =>
      (match urlErr with
       | net_DNSError _ _ => [LogErrorMsg dnsHint]
       | _ => []
       end) ++
      (match urlErr with
       | net_OpError _ _ => [LogErrorMsg networkHint]
       | _ => []
       end)
  | _ => []
  end.

(** What the failure branch logs. *)
Definition fetchErrorLogs (st : loopState) (err : error) : list event :=
  if webError st =? 1 then fetchHints err ++ [LogError err] else [].

(** One iteration of the [for] loop: the events, and the state of the
    next iteration, or [None] when the goroutine returns. *)
Definition iteration (st : loopState) (i : tick) : trace * option loopState :=
  match fetched i with
  | Err err =>
      (tagged Watcher
         (WatchMetadata (Err err) :: fetchErrorLogs st err ++
          [Sleep (5 * time_Second)]),
       Some {| oldMetadata := oldMetadata st;
               webError := GoInt.incr (webError st) |})
  | Ok newMetadata =>
      if ctxDone i then
        (tagged Watcher [WatchMetadata (Ok newMetadata); CtxDone true], None)
      else
        (tagged Watcher [WatchMetadata (Ok newMetadata); CtxDone false] ++
         runUpdate newMetadata (oldMetadata st) (env i),
         Some {| oldMetadata := newMetadata; webError := 0 |})
  end.

Inductive status : Type :=
| Fetching (st : loopState)  (* about to call [watchMetadata] *)
| Returned.

Fixpoint loop (inputs : list tick) (st : loopState) : trace * status :=
  match inputs with
  | [] => ([], Fetching st)
  | i :: rest =>
      match iteration st i with
      | (tr, None) => (tr, Returned)
      | (tr, Some st') =>
          let '(tr', s) := loop rest st' in (tr ++ tr', s)
      end
  end.

Definition initialState : loopState :=
  {| oldMetadata := zeroMetadata; webError := 0 |}.

(** [run], up to the point where the calling goroutine blocks on
    [<-ctx.Done()]: the start-up line, then the watch loop. *)
Definition run (version : string) (inputs : list tick) : trace :=
  (Main, LogInfo ("GCE Agent Started (version " ++ version ++ ")")%string) ::
  fst (loop inputs initialState).

Definition isFailure (i : tick) : bool :=
  match fetched i with
  | Err _ => true
  | Ok _ => false
  end.

(** Convenient inputs. *)
Definition failure (w : world) (err : error) : tick :=
  {| fetched := Err err; ctxDone := false; env := w |}.
Definition success (w : world) (newMetadata : metadataJSON) : tick :=
  {| fetched := Ok newMetadata; ctxDone := false; env := w |}.
Definition cancelled (w : world) (newMetadata : metadataJSON) : tick :=
  {| fetched := Ok newMetadata; ctxDone := true; env := w |}.
End Agent.

(** ** Observations on a run of the watch loop *)
Section Observations.
Context {metadataJSON iniFile : Type}.
Implicit Types (w : @world metadataJSON iniFile).
Implicit Types (i : @tick metadataJSON iniFile).

(** The fetch succeeded and the [select] found the context done: the
    iteration at which the goroutine returns. *)
Definition isCancel i : bool :=
  match fetched i with
  | Ok _ => ctxDone i
  | Err _ => false
  end.

(** The inputs up to the one at which the goroutine returns. *)
Fixpoint consumed (inputs : list (@tick metadataJSON iniFile))
    : list (@tick metadataJSON iniFile) :=
  match inputs with
  | [] => []
  | i :: rest => if isCancel i then [i] else i :: consumed rest
  end.

Definition isSleep (ev : @event metadataJSON iniFile) : bool :=
  match ev with
  | Sleep _ => true
  | _ => false
  end.

(** The calls of [time.Sleep] in a trace. *)
Definition sleepsOf (t : @trace metadataJSON iniFile)
    : list (@event metadataJSON iniFile) :=
  filter isSleep (map snd t).

(** A trace without its log entries. *)
Definition silentOf (t : @trace metadataJSON iniFile)
    : @trace metadataJSON iniFile :=
  filter (fun x => negb (isLog (snd x))) t.

(** The manager calls of a trace. *)
Definition callsOf (t : @trace metadataJSON iniFile)
    : list (@event metadataJSON iniFile) :=
  filter isManagerCall (map snd t).

(** The instances on which the worker of a domain called [disabled()],
    in the order of the calls. *)
Definition instanceCalled (ev : @event metadataJSON iniFile)
    : list (@manager metadataJSON iniFile) :=
  match ev with
  | CallDisabled m _ => [m]
  | _ => []
  end.

Definition instancesOf (d : domain) (t : @trace metadataJSON iniFile)
    : list (@manager metadataJSON iniFile) :=
  flat_map instanceCalled (eventsOf (Worker d) t).

(** The cycles that a list of inputs asks for, each with its current
    snapshot, its previous snapshot and its environment: a failed fetch
    asks for none, a successful one for a cycle from the snapshot of the
    cycle before, until the context is found done. *)
Fixpoint cycles (old : metadataJSON) (inputs : list (@tick metadataJSON iniFile))
    : list (metadataJSON * metadataJSON * @world metadataJSON iniFile) :=
  match inputs with
  | [] => []
  | i :: rest =>
      match fetched i with
      | Err _ => cycles old rest
      | Ok new => if ctxDone i then [] else (new, old, env i) :: cycles new rest
      end
  end.

(** Cycles that hand their current snapshot on as the next previous one. *)
Inductive chained : metadataJSON ->
    list (metadataJSON * metadataJSON * @world metadataJSON iniFile) -> Prop :=
| chained_nil old : chained old []
| chained_cons old new w cs :
    chained new cs -> chained old ((new, old, w) :: cs).

(** The snapshot of the last successful fetch, [old] when there is none. *)
Definition lastFetched (old : metadataJSON)
    (inputs : list (@tick metadataJSON iniFile)) : metadataJSON :=
  fold_left (fun o i => match fetched i with
                        | Ok new => new
                        | Err _ => o
                        end) inputs old.

(** The number of calls the worker of [m] makes on it. *)
Definition callsMade w (m : @manager metadataJSON iniFile) : nat :=
  if mgr_disabled w m then 1 else if mgr_diff w m then 3 else 2.
End Observations.

(** ** [writeSerial]

    The serial library ([github.com/tarm/serial]) is outside [main.go]: a
    port handle is a parameter, and what opening, writing and closing
    return is an input. *)
Record serial_Config : Type := {
  Name : string;
  Baud : Z
}.

Section Serial.
Variable Port : Type.

Record serialLibrary : Type := {
  serial_OpenPort : serial_Config -> result Port;
  port_Write : Port -> list byte -> Z * option error;
  port_Close : Port -> option error
}.

Inductive serialEvent : Type :=
| OpenPort (c : serial_Config)
| PortWrite (s : Port) (msg : list byte)
| PortClose (s : Port).

(** The calls made, in order, and the error returned.  The deferred
    [s.Close()] runs when the function returns, after [s.Write]; what
    [Close] returns is dropped. *)
Definition writeSerial (lib : serialLibrary) (port : string) (msg : list byte)
    : list serialEvent * option error :=
  let c := {| Name := port; Baud := 115200 |} in
  match serial_OpenPort lib c with
  | Err err => ([OpenPort c], Some err)
  | Ok s =>
      let '(_, err) := port_Write lib s msg in
      ([OpenPort c; PortWrite s msg; PortClose s], err)
  end.

Definition isClose (ev : serialEvent) : bool :=
  match ev with
  | PortClose _ => true
  | _ => false
  end.

Definition isWrite (ev : serialEvent) : bool :=
  match ev with
  | PortWrite _ _ => true
  | _ => false
  end.
End Serial.
Arguments OpenPort {Port} c.

(** ** Sample environments

    Snapshots are JSON texts, the zero snapshot is the empty text, and an
    override configuration is a list of keys with their values. *)
Module Sample.
Definition snapshot : Type := string.
Definition config : Type := list (string * string).
Definition zero : snapshot := ""%string.

Definition noSuchFile : error := os_PathError "open" configPath true.
Definition accessDenied : error := os_PathError "open" configPath false.
Definition lookupFailed : error :=
  url_Error "Get" "http://metadata.google.internal/computeMetadata/v1"
    (net_DNSError "no such host" "metadata.google.internal").
Definition unreachable : error :=
  url_Error "Get" "http://metadata.google.internal/computeMetadata/v1"
    (net_OpError "dial" "tcp").
Definition deadline : error := errorString "context deadline exceeded".
Definition setFailed : error := errorString "netsh failed".

(** A parser that accepts the empty file only. *)
Definition load (d : list byte) : result config :=
  match d with
  | [] => Ok []
  | _ => Err (errorString "key-value delimiter not found")
  end.

(** No override file; every domain is enabled, reports a change, and
    applies it without error. *)
Definition calm : @world snapshot config :=
  {| ioutil_ReadFile := fun _ => Err noSuchFile;
     ini_InsensitiveLoad := load;
     mgr_disabled := fun _ => false;
     mgr_diff := fun _ => true;
     mgr_set := fun _ => None;
     schedule := [3; 0; 1; 0; 2; 2; 1]%nat |}.

(** As [calm], but the addresses manager fails to apply. *)
Definition addressesFail : @world snapshot config :=
  {| ioutil_ReadFile := fun _ => Err noSuchFile;
     ini_InsensitiveLoad := load;
     mgr_disabled := fun _ => false;
     mgr_diff := fun _ => true;
     mgr_set := fun m => match m with
                         | addresses _ _ _ => Some setFailed
                         | _ => None
                         end;
     schedule := [0; 1; 0; 2; 0; 3; 1]%nat |}.

(** Every domain is disabled, and every [diff] reports a change. *)
Definition allDisabled : @world snapshot config :=
  {| ioutil_ReadFile := fun _ => Err noSuchFile;
     ini_InsensitiveLoad := load;
     mgr_disabled := fun _ => true;
     mgr_diff := fun _ => true;
     mgr_set := fun _ => None;
     schedule := [] |}.

(** The override file cannot be read. *)
Definition unreadable : @world snapshot config :=
  {| ioutil_ReadFile := fun _ => Err accessDenied;
     ini_InsensitiveLoad := load;
     mgr_disabled := fun _ => false;
     mgr_diff := fun _ => true;
     mgr_set := fun _ => None;
     schedule := [1; 1; 1]%nat |}.

(** The override file does not parse. *)
Definition garbled : @world snapshot config :=
  {| ioutil_ReadFile := fun _ => Ok [x5b; x5b];
     ini_InsensitiveLoad := load;
     mgr_disabled := fun _ => false;
     mgr_diff := fun _ => true;
     mgr_set := fun _ => None;
     schedule := [2; 0]%nat |}.

(** A service shim that knows the service verbs. *)
Definition register : serviceShim := fun name displayName desc action =>
  if containsString action ["run"; "install"; "remove"; "start"; "stop"]%string
  then None
  else Some (errorString ("unknown action " ++ action)%string).

Definition program : string := "GCEWindowsAgent.exe"%string.

(** The configuration of an agent without override file. *)
Definition noOverride : option config := Some [].

(** The state of the loop after a cycle. *)
Definition afterACycle : @loopState snapshot :=
  {| oldMetadata := "{previous}"%string; webError := 0 |}.
End Sample.

(** A serial line: ports are numbered; [COM1] opens, every other port is
    absent; a write of more than four bytes fails. *)
Module SampleSerial.
Definition noSuchPort : error := errorString "The system cannot find the file specified.".
Definition writeFailed : error := errorString "short write".

Definition line : serialLibrary nat :=
  {| serial_OpenPort := fun c =>
       if String.eqb (Name c) "COM1" then Ok 1%nat else Err noSuchPort;
     port_Write := fun s msg =>
       if (length msg <=? 4)%nat then (Z.of_nat (length msg), None)
       else (4, Some writeFailed);
     port_Close := fun _ => None |}.
End SampleSerial.

(** * Properties *)

Unset Implicit Arguments.

(** ** Go's [int] *)
Lemma wrap_in_range (z : Z) :
  GoInt.min_int <= z <= GoInt.max_int -> GoInt.wrap z = z.
Proof.
  unfold GoInt.wrap, GoInt.min_int, GoInt.max_int, GoInt.bits.
  intros H. rewrite Z.mod_small; lia.
Qed.

Lemma incr_in_range (z : Z) :
  0 <= z < GoInt.max_int -> GoInt.incr z = z + 1.
Proof.
  intros H. unfold GoInt.incr. apply wrap_in_range.
  unfold GoInt.min_int, GoInt.max_int, GoInt.bits in *. lia.
Qed.

(** [webError++] at the largest [int] gives the smallest one. *)
Lemma incr_wraps : GoInt.incr GoInt.max_int = GoInt.min_int.
Proof. reflexivity. Qed.

(** ** Interleavings *)
Section InterleaveFacts.
Variable A : Type.
Implicit Types (ts : list (list A)) (sched : list nat).

Lemma pick_nth i : forall ts a ts',
  pick i ts = Some (a, ts') ->
  nth i ts [] = a :: nth i ts' [] /\
  forall j, j <> i -> nth j ts' [] = nth j ts [].
Proof.
  induction i as [|i IH]; intros [|t ts] a ts' H; simpl in H; try discriminate.
  - destruct t as [|b t]; [discriminate|]. injection H as -> <-.
    split; [reflexivity|]. intros [|j] Hj; [congruence | reflexivity].
  - destruct (pick i ts) as [[b ts'']|] eqn:E; [|discriminate].
    injection H as -> <-. destruct (IH _ _ _ E) as [H1 H2].
    split; [exact H1|]. intros [|j] Hj; [reflexivity|].
    simpl. apply H2. congruence.
Qed.

Lemma pick_perm i : forall ts a ts',
  pick i ts = Some (a, ts') -> Permutation (concat ts) (a :: concat ts').
Proof.
  induction i as [|i IH]; intros [|t ts] a ts' H; simpl in H; try discriminate.
  - destruct t as [|b t]; [discriminate|]. injection H as -> <-. reflexivity.
  - destruct (pick i ts) as [[b ts'']|] eqn:E; [|discriminate].
    injection H as -> <-. simpl.
    rewrite (IH _ _ _ E). symmetry. apply Permutation_middle.
Qed.

(** Every event of every thread happens exactly once. *)
Lemma interleave_perm sched : forall ts,
  Permutation (interleave sched ts) (concat ts).
Proof.
  induction sched as [|i sched IH]; intros ts; simpl; [reflexivity|].
  destruct (pick i ts) as [[a ts']|] eqn:E; [|apply IH].
  rewrite (pick_perm _ _ _ _ E). constructor. apply IH.
Qed.

Lemma interleave_In sched ts (x : A) :
  In x (interleave sched ts) <-> exists t, In t ts /\ In x t.
Proof.
  rewrite <- in_concat. split; apply Permutation_in;
    [|symmetry]; apply interleave_perm.
Qed.

Lemma pick_middle (before : list (list A)) : forall a t after,
  pick (length before) (before ++ (a :: t) :: after) =
  Some (a, before ++ t :: after).
Proof.
  induction before as [|b before IH]; intros a t after; simpl.
  - reflexivity.
  - rewrite IH. reflexivity.
Qed.

(** Every interleaving is the run of some schedule. *)
Lemma interleaving_has_schedule ts tr :
  interleaving ts tr -> exists sched, interleave sched ts = tr.
Proof.
  induction 1 as [ts Hts|before a t after tr _ [sched IH]].
  - exists []. simpl.
    induction ts as [|t ts IHts]; [reflexivity|].
    simpl. rewrite (Hts t) by (left; reflexivity). simpl.
    apply IHts. intros t' Ht'. apply Hts. right. exact Ht'.
  - exists (length before :: sched). simpl.
    rewrite pick_middle, IH. reflexivity.
Qed.

Variable P : A -> bool.

Lemma filter_concat_one : forall ts i,
  (forall j, j <> i -> filter P (nth j ts []) = []) ->
  filter P (concat ts) = filter P (nth i ts []).
Proof.
  induction ts as [|t ts IH]; intros i H; simpl.
  - destruct i; reflexivity.
  - rewrite filter_app. destruct i as [|i].
    + rewrite (IH (length ts)).
      * rewrite nth_overflow by lia. simpl. apply app_nil_r.
      * intros j _. apply (H (S j)). discriminate.
    + assert (H0 : filter P t = []) by (apply (H 0%nat); discriminate).
      rewrite H0. simpl. apply IH.
      intros j Hj. apply (H (S j)). congruence.
Qed.

(** What one thread does is seen in its own order, whatever the
    schedule, when [P] selects events of that thread only. *)
Lemma filter_interleave_one sched : forall ts i,
  (forall j, j <> i -> filter P (nth j ts []) = []) ->
  filter P (interleave sched ts) = filter P (nth i ts []).
Proof.
  induction sched as [|k sched IH]; intros ts i H; simpl.
  - apply filter_concat_one, H.
  - destruct (pick k ts) as [[a ts']|] eqn:E; [|apply IH, H].
    destruct (pick_nth _ _ _ _ E) as [Hk Hother].
    destruct (Nat.eq_dec k i) as [->|Hki].
    + rewrite Hk. simpl. rewrite (IH ts' i); [reflexivity|].
      intros j Hj. rewrite Hother by exact Hj. apply H, Hj.
    + pose proof (H k Hki) as Hnil. rewrite Hk in Hnil. simpl in Hnil.
      simpl. destruct (P a); [discriminate|].
      rewrite (IH ts' i).
      * rewrite Hother by congruence. reflexivity.
      * intros j Hj. destruct (Nat.eq_dec j k) as [->|Hjk]; [exact Hnil|].
        rewrite Hother by exact Hjk. apply H, Hj.
Qed.
End InterleaveFacts.

(** ** Traces of a cycle *)
Section CycleFacts.
Context {metadataJSON iniFile : Type}.
Implicit Types (w : @world metadataJSON iniFile).
Implicit Types (m : @manager metadataJSON iniFile).
Implicit Types (d : domain) (g : goroutine).

Lemma domain_eqb_eq d d' : domain_eqb d d' = true <-> d = d'.
Proof. destruct d, d'; simpl; split; congruence. Qed.

Lemma goroutine_eqb_eq g g' : goroutine_eqb g g' = true <-> g = g'.
Proof.
  destruct g as [| |d], g' as [| |d']; simpl; try (split; congruence).
  rewrite domain_eqb_eq. split; congruence.
Qed.

Lemma goroutine_eqb_refl g : goroutine_eqb g g = true.
Proof. apply goroutine_eqb_eq. reflexivity. Qed.

Lemma eventsOf_app g (t1 t2 : @trace metadataJSON iniFile) :
  eventsOf g (t1 ++ t2) = eventsOf g t1 ++ eventsOf g t2.
Proof. unfold eventsOf. rewrite filter_app. apply map_app. Qed.

Lemma filter_tagged g g' (evs : list (@event metadataJSON iniFile)) :
  filter (fun x => goroutine_eqb (fst x) g) (tagged g' evs) =
  if goroutine_eqb g' g then tagged g' evs else [].
Proof.
  induction evs as [|ev evs IH]; simpl.
  - destruct (goroutine_eqb g' g); reflexivity.
  - rewrite IH. destruct (goroutine_eqb g' g); reflexivity.
Qed.

Lemma eventsOf_tagged g g' (evs : list (@event metadataJSON iniFile)) :
  eventsOf g (tagged g' evs) = if goroutine_eqb g' g then evs else [].
Proof.
  unfold eventsOf. rewrite filter_tagged.
  destruct (goroutine_eqb g' g); [|reflexivity].
  unfold tagged. rewrite map_map. simpl. apply map_id.
Qed.

Lemma In_tagged g g' (ev : @event metadataJSON iniFile) evs :
  In (g, ev) (tagged g' evs) <-> g = g' /\ In ev evs.
Proof.
  unfold tagged. rewrite in_map_iff. split.
  - intros [ev' [E H]]. injection E as <- <-. auto.
  - intros [-> H]. exists ev. auto.
Qed.

Lemma workers_nth w d (new old : metadataJSON) cfg :
  nth (indexOf d) (workers w (managers new old cfg)) [] =
  tagged (Worker d) (worker w (build d new old cfg)).
Proof. destruct d; reflexivity. Qed.

Lemma workers_other w d (new old : metadataJSON) cfg j :
  j <> indexOf d ->
  filter (fun x => goroutine_eqb (fst x) (Worker d))
    (nth j (workers w (managers new old cfg)) []) = [].
Proof.
  intros Hj.
  assert (Hcase : (exists d', j = indexOf d' /\ d' <> d) \/ (4 <= j)%nat).
  { destruct j as [|[|[|[|j]]]];
      [left; exists Addresses | left; exists Accounts
      |left; exists Wsfc | left; exists Diagnostics | right; lia];
      (split; [reflexivity | intros <-; apply Hj; reflexivity]). }
  destruct Hcase as [[d' [-> Hd]]|Hge].
  - rewrite workers_nth, filter_tagged.
    destruct d, d'; simpl; congruence.
  - rewrite nth_overflow; [reflexivity|].
    unfold workers, managers. rewrite !length_map. simpl. lia.
Qed.

(** The watcher itself only logs the configuration error, before any
    worker starts. *)
Lemma runUpdate_shape (new old : metadataJSON) w :
  runUpdate new old w =
  tagged Watcher (fst (loadConfig w)) ++
  interleave (schedule w)
    (workers w (managers new old (snd (loadConfig w)))).
Proof. unfold runUpdate. destruct (loadConfig w). reflexivity. Qed.

(** Whatever the schedule, the goroutine of a domain performs the body
    [worker] on the instance built for this cycle, from start to end. *)
Lemma eventsOf_runUpdate d (new old : metadataJSON) w :
  eventsOf (Worker d) (runUpdate new old w) =
  worker w (build d new old (snd (loadConfig w))).
Proof.
  rewrite runUpdate_shape, eventsOf_app, eventsOf_tagged.
  change (goroutine_eqb Watcher (Worker d)) with false. cbv iota.
  rewrite app_nil_l. unfold eventsOf at 1.
  rewrite (filter_interleave_one _ _ _ _ (indexOf d))
    by (intros j Hj; apply workers_other, Hj).
  rewrite workers_nth, filter_tagged, goroutine_eqb_refl.
  unfold tagged. rewrite map_map. apply map_id.
Qed.

Lemma In_workers w (new old : metadataJSON) cfg g ev :
  (exists t, In t (workers w (managers new old cfg)) /\ In (g, ev) t) <->
  exists d, g = Worker d /\ In ev (worker w (build d new old cfg)).
Proof.
  split.
  - intros [t [Ht Hin]]. unfold workers, managers, domains in Ht.
    cbn [map In] in Ht.
    destruct Ht as [<-|[<-|[<-|[<-|[]]]]]; apply In_tagged in Hin;
      destruct Hin as [-> Hin];
      [exists Addresses|exists Accounts|exists Wsfc|exists Diagnostics];
      auto.
  - intros [d [-> Hin]].
    exists (tagged (Worker d) (worker w (build d new old cfg))). split.
    + rewrite <- workers_nth. apply nth_In. destruct d; simpl; lia.
    + apply In_tagged. auto.
Qed.

(** An event of a cycle is the configuration error logged by the watcher
    or an event of the body of one of the four workers. *)
Lemma In_runUpdate (new old : metadataJSON) w g ev :
  In (g, ev) (runUpdate new old w) <->
  (g = Watcher /\ In ev (fst (loadConfig w))) \/
  exists d, g = Worker d /\
            In ev (worker w (build d new old (snd (loadConfig w)))).
Proof.
  rewrite runUpdate_shape, in_app_iff, In_tagged, interleave_In, In_workers.
  reflexivity.
Qed.

(** The shape of a worker's body. *)
Lemma worker_cases w m :
  (mgr_disabled w m = true /\ worker w m = [CallDisabled m true]) \/
  (mgr_disabled w m = false /\ mgr_diff w m = false /\
   worker w m = [CallDisabled m false; CallDiff m false]) \/
  (mgr_disabled w m = false /\ mgr_diff w m = true /\
   worker w m =
     CallDisabled m false :: CallDiff m true :: CallSet m (mgr_set w m) ::
     match mgr_set w m with
     | Some err => [LogError err]
     | None => []
     end).
Proof.
  unfold worker.
  destruct (mgr_disabled w m); [auto|].
  destruct (mgr_diff w m); simpl; auto.
Qed.

(** The events of a worker's body, one by one. *)
Lemma In_worker w m ev :
  In ev (worker w m) ->
  ev = CallDisabled m (mgr_disabled w m) \/
  (mgr_disabled w m = false /\ ev = CallDiff m (mgr_diff w m)) \/
  (mgr_disabled w m = false /\ mgr_diff w m = true /\
   (ev = CallSet m (mgr_set w m) \/
    exists err, mgr_set w m = Some err /\ ev = LogError err)).
Proof.
  intros Hin.
  destruct (worker_cases w m) as [[D E]|[[D [C E]]|[D [C E]]]];
    rewrite E in Hin; rewrite ?D, ?C; simpl in Hin.
  - destruct Hin as [<-|[]]. auto.
  - destruct Hin as [<-|[<-|[]]]; auto.
  - destruct Hin as [<-|[<-|[<-|Hin]]]; auto 6.
    destruct (mgr_set w m) as [err|]; simpl in Hin; [|contradiction].
    destruct Hin as [<-|[]]. right. right. eauto 6.
Qed.

Lemma build_domainOf d (new old : metadataJSON) (cfg : option iniFile) :
  domainOf (build d new old cfg) = d.
Proof. destruct d; reflexivity. Qed.
End CycleFacts.

(** Case analysis on an event [H] of the body of a worker. *)
Ltac worker_event H :=
  apply In_worker in H;
  destruct H as [H|[[? H]|[? [? [H|[? [? H]]]]]]];
  try discriminate H; try (injection H as <- <-); subst.

(** ** [containsString] *)

(** C10. [containsString s ss] returns true exactly when some element of
    [ss] is equal to [s]. *)
Theorem containsString_iff (s : string) (ss : list string) :
  containsString s ss = true <-> exists a, In a ss /\ a = s.
Proof.
  induction ss as [|a ss IH]; simpl.
  - split; [discriminate | intros [a [[] _]]].
  - destruct (String.eqb_spec a s) as [->|Hne].
    + split; [|reflexivity]. intros _. exists s. auto.
    + rewrite IH. split.
      * intros [b [Hin E]]. exists b. auto.
      * intros [b [[E'|Hin] E]]; [congruence|]. exists b. auto.
Qed.

(** ** The dispatch of one cycle *)
Section DispatchFacts.
Context {metadataJSON iniFile : Type}.
Implicit Types (w : @world metadataJSON iniFile).
Implicit Types (m : @manager metadataJSON iniFile).
Implicit Types (d : domain) (g : goroutine).

(** A worker only calls its own manager. *)
Lemma worker_calledOn w m ev m' :
  In ev (worker w m) -> calledOn ev = Some m' -> m' = m.
Proof.
  intros Hin Hc. worker_event Hin; simpl in Hc; congruence.
Qed.

Lemma In_worker_disabled w m m' r :
  In (CallDisabled m' r) (worker w m) -> m' = m /\ r = mgr_disabled w m.
Proof. intros Hin. worker_event Hin. auto. Qed.

Lemma In_worker_diff w m m' r :
  In (CallDiff m' r) (worker w m) ->
  m' = m /\ r = mgr_diff w m /\ mgr_disabled w m = false.
Proof. intros Hin. worker_event Hin. auto. Qed.

Lemma In_worker_set w m m' r :
  In (CallSet m' r) (worker w m) ->
  m' = m /\ r = mgr_set w m /\
  mgr_disabled w m = false /\ mgr_diff w m = true.
Proof. intros Hin. worker_event Hin. auto. Qed.

(** The watcher's part of [runUpdate] is at most one error log. *)
Lemma loadConfig_logs w ev :
  In ev (fst (loadConfig w)) -> exists err, ev = LogError err.
Proof.
  unfold loadConfig. destruct (parseConfig w configPath) as [cfg [e|]];
    simpl; [|contradiction].
  destruct (os_IsNotExist e); simpl; [contradiction|].
  intros [<-|[]]. eauto.
Qed.

(** A manager call in a cycle is made by the worker of the manager's
    domain, on the instance built for the cycle. *)
Lemma call_in_runUpdate (new old : metadataJSON) w g ev m :
  In (g, ev) (runUpdate new old w) -> calledOn ev = Some m ->
  g = Worker (domainOf m) /\
  m = build (domainOf m) new old (snd (loadConfig w)) /\
  In ev (worker w m).
Proof.
  intros Hin Hc. apply In_runUpdate in Hin.
  destruct Hin as [[_ Hlog]|[d [-> Hin]]].
  - apply loadConfig_logs in Hlog. destruct Hlog as [err ->]. discriminate.
  - pose proof (worker_calledOn _ _ _ _ Hin Hc) as ->.
    rewrite build_domainOf. auto.
Qed.

(** C1. In a cycle, [set()] is invoked on a manager only when its
    [disabled()] returned false and its [diff()] returned true in that
    cycle, after both; and when [disabled()] returned true, neither
    [diff()] nor [set()] is invoked on it in that cycle. *)
Theorem set_only_when_enabled_and_changed (new old : metadataJSON) w :
  let T := runUpdate new old w in
  (forall g m r, In (g, CallSet m r) T ->
     mgr_disabled w m = false /\ mgr_diff w m = true /\
     exists logs,
       eventsOf g T =
       CallDisabled m false :: CallDiff m true :: CallSet m r :: logs) /\
  (forall g m, In (g, CallDisabled m true) T ->
     eventsOf g T = [CallDisabled m true] /\
     (forall g' r, ~ In (g', CallDiff m r) T) /\
     (forall g' r, ~ In (g', CallSet m r) T)).
Proof.
  intros T. subst T. split.
  - intros g m r Hin.
    destruct (call_in_runUpdate _ _ _ _ _ _ Hin eq_refl) as [-> [Hm Hw]].
    apply In_worker_set in Hw. destruct Hw as [_ [-> [D C]]].
    split; [exact D|]. split; [exact C|].
    rewrite eventsOf_runUpdate, <- Hm.
    destruct (worker_cases w m) as [[D' _]|[[_ [C' _]]|[_ [_ E]]]];
      [congruence|congruence|].
    rewrite E. eauto.
  - intros g m Hin.
    destruct (call_in_runUpdate _ _ _ _ _ _ Hin eq_refl) as [-> [Hm Hw]].
    apply In_worker_disabled in Hw. destruct Hw as [_ D]. symmetry in D.
    split.
    + rewrite eventsOf_runUpdate, <- Hm.
      destruct (worker_cases w m) as [[_ E]|[[D' _]|[D' _]]];
        [exact E|congruence|congruence].
    + split; intros g' r Hin'.
      * destruct (call_in_runUpdate _ _ _ _ _ _ Hin' eq_refl) as [_ [_ Hw]].
        apply In_worker_diff in Hw. destruct Hw as [_ [_ D']]. congruence.
      * destruct (call_in_runUpdate _ _ _ _ _ _ Hin' eq_refl) as [_ [_ Hw]].
        apply In_worker_set in Hw. destruct Hw as [_ [_ [D' _]]]. congruence.
Qed.
End DispatchFacts.

(** ** The watch loop *)
Section LoopFacts.
Context {metadataJSON iniFile : Type}.
Implicit Types (w : @world metadataJSON iniFile).
Implicit Types (st : @loopState metadataJSON).
Implicit Types (i : @tick metadataJSON iniFile).
Implicit Types (pre rest : list (@tick metadataJSON iniFile)).

Lemma loop_cons i rest st :
  loop (i :: rest) st =
  match snd (iteration st i) with
  | None => (fst (iteration st i), Returned)
  | Some st' =>
      (fst (iteration st i) ++ fst (loop rest st'), snd (loop rest st'))
  end.
Proof.
  simpl. destruct (iteration st i) as [tr [st'|]]; simpl; [|reflexivity].
  destruct (loop rest st'). reflexivity.
Qed.

Lemma loop_app pre : forall rest st,
  loop (pre ++ rest) st =
  match loop pre st with
  | (tr, Fetching st') => (tr ++ fst (loop rest st'), snd (loop rest st'))
  | (tr, Returned) => (tr, Returned)
  end.
Proof.
  induction pre as [|i pre IH]; intros rest st.
  - simpl. destruct (loop rest st). reflexivity.
  - rewrite <- app_comm_cons, !loop_cons.
    destruct (snd (iteration st i)) as [st'|]; [|reflexivity].
    rewrite IH. destruct (loop pre st') as [tr [st''|]]; cbn [fst snd].
    + rewrite app_assoc. reflexivity.
    + reflexivity.
Qed.

(** Every iteration starts by calling [watchMetadata]. *)
Lemma iteration_starts_with_fetch st i :
  exists tr, fst (iteration st i) = (Watcher, WatchMetadata (fetched i)) :: tr.
Proof.
  unfold iteration. destruct (fetched i) as [new|err]; simpl; eauto.
  destruct (ctxDone i); simpl; eauto.
Qed.

Lemma iteration_failure st i err :
  fetched i = Err err ->
  iteration st i =
  (tagged Watcher
     (WatchMetadata (Err err) :: fetchErrorLogs st err ++
      [Sleep (5 * time_Second)]),
   Some {| oldMetadata := oldMetadata st;
           webError := GoInt.incr (webError st) |}).
Proof. intros E. unfold iteration. rewrite E. reflexivity. Qed.

Lemma isFailure_inv i :
  isFailure i = true -> exists err, fetched i = Err err.
Proof.
  unfold isFailure. destruct (fetched i) as [new|err]; [discriminate|eauto].
Qed.

Lemma fetchHints_logs err :
  forallb (@isLog metadataJSON iniFile) (fetchHints err) = true.
Proof.
  destruct err as [op url inner| | | |]; try reflexivity.
  destruct inner; reflexivity.
Qed.

Lemma fetchErrorLogs_logs st err :
  forallb (@isLog metadataJSON iniFile) (fetchErrorLogs st err) = true.
Proof.
  unfold fetchErrorLogs. destruct (webError st =? 1); [|reflexivity].
  rewrite forallb_app, fetchHints_logs. reflexivity.
Qed.

Lemma filter_all {A : Type} (P : A -> bool) (l : list A) :
  forallb P l = true -> filter P l = l.
Proof.
  induction l as [|a l IH]; simpl; [reflexivity|].
  intros H. apply andb_prop in H. destruct H as [Ha Hl].
  rewrite Ha, (IH Hl). reflexivity.
Qed.

Lemma logsOf_tagged g (evs : list (@event metadataJSON iniFile)) :
  logsOf (tagged g evs) = tagged g (filter isLog evs).
Proof.
  unfold logsOf, tagged. induction evs as [|ev evs IH]; [reflexivity|].
  simpl. rewrite IH. destruct (isLog ev); reflexivity.
Qed.

(** A streak of failed fetches: the loop is still running, the previous
    snapshot is the one it started with, no manager was called and the
    context was not looked at. *)
Lemma loop_failures pre : forall st,
  forallb isFailure pre = true ->
  exists tr st',
    loop pre st = (tr, Fetching st') /\
    oldMetadata st' = oldMetadata st /\
    forall g ev, In (g, ev) tr ->
      g = Watcher /\ isManagerCall ev = false /\ isCtxDone ev = false.
Proof.
  induction pre as [|i pre IH]; intros st Hpre; simpl in Hpre.
  - exists [], st. simpl. repeat split; contradiction.
  - apply andb_prop in Hpre. destruct Hpre as [Hi Hpre].
    destruct (isFailure_inv _ Hi) as [err E].
    rewrite loop_cons, (iteration_failure st i err E). cbn [fst snd].
    destruct (IH {| oldMetadata := oldMetadata st;
                    webError := GoInt.incr (webError st) |} Hpre)
      as [tr [st' [Hl [Hold Hev]]]].
    rewrite Hl. cbn [fst snd].
    eexists _, st'. split; [reflexivity|]. split; [exact Hold|].
    intros g ev Hin. apply in_app_iff in Hin. destruct Hin as [Hin|Hin].
    + apply In_tagged in Hin. destruct Hin as [-> Hin].
      split; [reflexivity|]. simpl in Hin.
      destruct Hin as [<-|Hin]; [auto|].
      apply in_app_iff in Hin. destruct Hin as [Hin|[<-|[]]]; [|auto].
      pose proof (fetchErrorLogs_logs st err) as Hlogs.
      rewrite forallb_forall in Hlogs. specialize (Hlogs _ Hin).
      destruct ev; simpl in Hlogs; try discriminate; auto.
    + apply Hev, Hin.
Qed.

(** The counter after a streak of failures that started at zero is the
    length of the streak, as long as it fits in an [int]. *)
Lemma loop_failures_counter pre : forall st,
  forallb isFailure pre = true ->
  0 <= webError st ->
  webError st + Z.of_nat (length pre) <= GoInt.max_int ->
  snd (loop pre st) =
  Fetching {| oldMetadata := oldMetadata st;
              webError := webError st + Z.of_nat (length pre) |}.
Proof.
  induction pre as [|i pre IH]; intros st Hpre H0 Hmax.
  - simpl. rewrite Z.add_0_r. destruct st; reflexivity.
  - simpl in Hpre. apply andb_prop in Hpre. destruct Hpre as [Hi Hpre].
    destruct (isFailure_inv _ Hi) as [err E].
    rewrite loop_cons, (iteration_failure st i err E). cbn [fst snd].
    assert (Hlen : Z.of_nat (length (i :: pre)) = 1 + Z.of_nat (length pre))
      by (simpl length; lia).
    rewrite Hlen in *.
    rewrite IH; cbn [oldMetadata webError]; rewrite ?incr_in_range;
      try lia; try exact Hpre.
    f_equal. f_equal. lia.
Qed.
End LoopFacts.

Section LoopClaims.
Context {metadataJSON iniFile : Type}.
Implicit Types (w : @world metadataJSON iniFile).
Implicit Types (st : @loopState metadataJSON).
Implicit Types (i : @tick metadataJSON iniFile).
Implicit Types (pre rest : list (@tick metadataJSON iniFile)).
Implicit Types (new : metadataJSON) (err : error).

(** C2. In a streak of consecutive failed fetches that starts with the
    counter at zero, only the second failure is logged: it logs the raw
    error once, preceded by one hint when the error is a [*url.Error]
    around a DNS error or around a network error.  The first, the third
    and the later failures log nothing.  The counter is zero when the
    loop starts and after every cycle, so the next streak follows the
    same pattern.  ([pre] are the failures of the streak so far, [err]
    is the next one; the streak fits in an [int].) *)
Theorem second_consecutive_failure_is_logged st pre err (c : bool) w :
  webError st = 0 ->
  forallb isFailure pre = true ->
  Z.of_nat (length pre) <= GoInt.max_int ->
  let next := {| fetched := Err err; ctxDone := c; env := w |} in
  exists tr st',
    loop pre st = (tr, Fetching st') /\
    webError st' = Z.of_nat (length pre) /\
    logsOf (fst (iteration st' next)) =
      (if Nat.eqb (length pre) 1
       then tagged Watcher (fetchHints err ++ [LogError err])
       else []) /\
    (fetchHints err =
       match err with
       | url_Error _ _ (net_DNSError _ _) =>
           [@LogErrorMsg metadataJSON iniFile dnsHint]
       | url_Error _ _ (net_OpError _ _) =>
           [@LogErrorMsg metadataJSON iniFile networkHint]
       | _ => []
       end) /\
    (forall zero : metadataJSON, webError (initialState zero) = 0) /\
    (forall s new w',
       exists tr' s', iteration s (success w' new) = (tr', Some s') /\
                      webError s' = 0).
Proof.
  intros H0 Hpre Hmax next.
  destruct (loop_failures pre st Hpre) as [tr [st' [Hl [Hold _]]]].
  pose proof (loop_failures_counter pre st Hpre) as Hc.
  rewrite Hl, H0 in Hc. cbn [snd] in Hc.
  specialize (Hc ltac:(lia) ltac:(lia)). injection Hc as ->.
  eexists tr, _. split; [exact Hl|]. cbn [webError].
  split; [lia|]. split; [|split; [|split]].
  - rewrite (iteration_failure _ next err eq_refl). cbn [fst].
    rewrite logsOf_tagged. cbn [filter isLog].
    rewrite filter_app. cbn [filter isLog]. rewrite app_nil_r.
    rewrite (filter_all _ _ (fetchErrorLogs_logs _ err)).
    unfold fetchErrorLogs. cbn [webError].
    destruct (Nat.eqb_spec (length pre) 1) as [E|E];
      destruct (Z.eqb_spec (Z.of_nat (length pre)) 1) as [E'|E'];
      try reflexivity; lia.
  - destruct err as [op url inner| | | |]; try reflexivity.
    destruct inner; reflexivity.
  - reflexivity.
  - intros s new w'. eexists _, _. split; [reflexivity|reflexivity].
Qed.

(** C5. A fetch that returns an error leaves the previous snapshot as it
    was and does not end the loop: after the logging policy the loop
    sleeps five seconds and then calls [watchMetadata] again. *)
Theorem fetch_failure_retries_after_delay st err (c : bool) w :
  let i := {| fetched := Err err; ctxDone := c; env := w |} in
  exists logs st',
    iteration st i =
      (tagged Watcher
         (WatchMetadata (Err err) :: logs ++ [Sleep 5000000000]),
       Some st') /\
    logs = fetchErrorLogs st err /\
    forallb isLog logs = true /\
    oldMetadata st' = oldMetadata st /\
    loop [i] st = (fst (iteration st i), Fetching st') /\
    forall next rest, exists tr,
      fst (loop (i :: next :: rest) st) =
      fst (iteration st i) ++ (Watcher, WatchMetadata (fetched next)) :: tr.
Proof.
  intros i.
  exists (fetchErrorLogs st err),
         {| oldMetadata := oldMetadata st;
            webError := GoInt.incr (webError st) |}.
  split; [reflexivity|]. split; [reflexivity|].
  split; [apply fetchErrorLogs_logs|]. split; [reflexivity|].
  split.
  - rewrite loop_cons. cbn [iteration i fetched fst snd loop].
    rewrite app_nil_r. reflexivity.
  - intros next rest. rewrite loop_cons.
    rewrite (iteration_failure st i err eq_refl). cbn [fst snd].
    rewrite loop_cons.
    destruct (iteration_starts_with_fetch
                {| oldMetadata := oldMetadata st;
                   webError := GoInt.incr (webError st) |} next)
      as [tr Htr].
    rewrite Htr.
    destruct (snd (iteration _ next)); cbn [fst]; eexists; reflexivity.
Qed.

(** C8. After a successful fetch the context is looked at once, before
    anything is dispatched.  When it is done the goroutine returns
    without dispatching.  Otherwise the cycle is dispatched and the next
    fetch starts with the counter at zero; whatever the counter was
    before the successful fetch has no effect on what follows.  The
    failure path never looks at the context: it continues even when the
    context is done. *)
Theorem cancellation_checked_after_successful_fetch st new w :
  (iteration st (success w new) =
     (tagged Watcher [WatchMetadata (Ok new); CtxDone false] ++
      runUpdate new (oldMetadata st) w,
      Some {| oldMetadata := new; webError := 0 |})) /\
  (forall g ev, In (g, ev) (runUpdate new (oldMetadata st) w) ->
     isCtxDone ev = false) /\
  (iteration st (cancelled w new) =
     (tagged Watcher [WatchMetadata (Ok new); CtxDone true], None)) /\
  (forall rest,
     loop (cancelled w new :: rest) st =
     (tagged Watcher [WatchMetadata (Ok new); CtxDone true], Returned)) /\
  (forall (c : bool) rest st2,
     oldMetadata st2 = oldMetadata st ->
     loop ({| fetched := Ok new; ctxDone := c; env := w |} :: rest) st2 =
     loop ({| fetched := Ok new; ctxDone := c; env := w |} :: rest) st) /\
  (forall err (c : bool),
     let i := {| fetched := Err err; ctxDone := c; env := w |} in
     (forall g ev, In (g, ev) (fst (iteration st i)) ->
        isCtxDone ev = false) /\
     exists st', snd (iteration st i) = Some st').
Proof.
  split; [reflexivity|]. split; [|split; [reflexivity|split; [|split]]].
  - intros g ev Hin. apply In_runUpdate in Hin.
    destruct Hin as [[_ Hlog]|[d [_ Hin]]].
    + apply loadConfig_logs in Hlog. destruct Hlog as [e ->]. reflexivity.
    + worker_event Hin; reflexivity.
  - intros rest. reflexivity.
  - intros c rest st2 Hold. rewrite !loop_cons.
    unfold iteration. cbn [fetched ctxDone env]. rewrite Hold.
    reflexivity.
  - intros err c i. split.
    + intros g ev Hin.
      rewrite (iteration_failure st i err eq_refl) in Hin. cbn [fst] in Hin.
      apply In_tagged in Hin. destruct Hin as [_ Hin]. simpl in Hin.
      destruct Hin as [<-|Hin]; [reflexivity|].
      apply in_app_iff in Hin. destruct Hin as [Hin|[<-|[]]]; [|reflexivity].
      pose proof (fetchErrorLogs_logs (iniFile:=iniFile) st err) as Hlogs.
      rewrite forallb_forall in Hlogs. specialize (Hlogs _ Hin).
      destruct ev; simpl in Hlogs; try discriminate; reflexivity.
    + eexists. reflexivity.
Qed.
End LoopClaims.

(** ** Cycles of the watch loop *)
Section CycleClaims.
Context {metadataJSON iniFile : Type}.
Implicit Types (w : @world metadataJSON iniFile).
Implicit Types (m : @manager metadataJSON iniFile).
Implicit Types (st : @loopState metadataJSON).
Implicit Types (pre rest : list (@tick metadataJSON iniFile)).
Implicit Types (new old : metadataJSON) (err : error) (d : domain).

(** What a worker does in the cycle of a successful fetch. *)
Lemma eventsOf_cycle d st new w :
  eventsOf (Worker d) (fst (iteration st (success w new))) =
  worker w (build d new (oldMetadata st) (snd (loadConfig w))).
Proof.
  unfold iteration, success. cbn [fetched ctxDone env fst].
  rewrite eventsOf_app, eventsOf_tagged.
  change (goroutine_eqb Watcher (Worker d)) with false. cbv iota.
  rewrite app_nil_l. apply eventsOf_runUpdate.
Qed.

(** The configuration that is loaded depends on the file and on the
    parser only. *)
Lemma loadConfig_ext w w' :
  ioutil_ReadFile w' = ioutil_ReadFile w ->
  ini_InsensitiveLoad w' = ini_InsensitiveLoad w ->
  loadConfig w' = loadConfig w.
Proof.
  intros Hr Hl. unfold loadConfig, parseConfig, emptyConfig.
  rewrite Hr, Hl. reflexivity.
Qed.

(** A worker depends on the answers of its own manager only. *)
Lemma worker_ext w w' m :
  mgr_disabled w' m = mgr_disabled w m ->
  mgr_diff w' m = mgr_diff w m ->
  mgr_set w' m = mgr_set w m ->
  worker w' m = worker w m.
Proof. intros Hd Hc Hs. unfold worker. rewrite Hd, Hc, Hs. reflexivity. Qed.

(** The events of a worker's body, written out. *)
Lemma worker_events w m :
  worker w m =
  CallDisabled m (mgr_disabled w m) ::
  (if mgr_disabled w m then []
   else CallDiff m (mgr_diff w m) ::
        (if mgr_diff w m
         then CallSet m (mgr_set w m) ::
              match mgr_set w m with
              | Some err => [LogError err]
              | None => []
              end
         else [])).
Proof.
  unfold worker. destruct (mgr_disabled w m); [reflexivity|].
  destruct (mgr_diff w m); reflexivity.
Qed.

(** C3. When the [set()] of one domain returns an error in a cycle, the
    error is logged by that domain's goroutine and goes no further: every
    domain still performs its own steps in that cycle (its [disabled()] is
    called, its [diff()] when it is not disabled, its [set()] when it also
    reports a change, and an error of its [set()] is logged), exactly as it
    would had the failing [set()] returned something else; the cycle
    completes, the current snapshot becomes the previous one and the loop
    goes on to the next fetch. *)
Theorem set_error_is_logged_and_isolated st new w d err :
  let cfg := snd (loadConfig w) in
  let failing := build d new (oldMetadata st) cfg in
  mgr_disabled w failing = false ->
  mgr_diff w failing = true ->
  mgr_set w failing = Some err ->
  exists tr,
    iteration st (success w new) =
      (tr, Some {| oldMetadata := new; webError := 0 |}) /\
    eventsOf (Worker d) tr =
      [CallDisabled failing false; CallDiff failing true;
       CallSet failing (Some err); LogError err] /\
    (forall d',
       let m := build d' new (oldMetadata st) cfg in
       In (Worker d', CallDisabled m (mgr_disabled w m)) tr /\
       (mgr_disabled w m = false ->
        In (Worker d', CallDiff m (mgr_diff w m)) tr) /\
       (mgr_disabled w m = false -> mgr_diff w m = true ->
        In (Worker d', CallSet m (mgr_set w m)) tr) /\
       (forall err',
          mgr_disabled w m = false -> mgr_diff w m = true ->
          mgr_set w m = Some err' -> In (Worker d', LogError err') tr) /\
       eventsOf (Worker d') tr =
         CallDisabled m (mgr_disabled w m) ::
         (if mgr_disabled w m then []
          else CallDiff m (mgr_diff w m) ::
               (if mgr_diff w m
                then CallSet m (mgr_set w m) ::
                     match mgr_set w m with
                     | Some err' => [LogError err']
                     | None => []
                     end
                else []))) /\
    (forall w' d',
       d' <> d ->
       ioutil_ReadFile w' = ioutil_ReadFile w ->
       ini_InsensitiveLoad w' = ini_InsensitiveLoad w ->
       mgr_disabled w' = mgr_disabled w ->
       mgr_diff w' = mgr_diff w ->
       (forall m, domainOf m <> d -> mgr_set w' m = mgr_set w m) ->
       eventsOf (Worker d') (fst (iteration st (success w' new))) =
       eventsOf (Worker d') tr) /\
    (forall rest,
       loop (success w new :: rest) st =
       (tr ++ fst (loop rest {| oldMetadata := new; webError := 0 |}),
        snd (loop rest {| oldMetadata := new; webError := 0 |}))).
Proof.
  intros cfg failing HD HC HS.
  exists (fst (iteration st (success w new))).
  split; [reflexivity|]. split; [|split; [|split]].
  - rewrite eventsOf_cycle. fold cfg. fold failing.
    rewrite worker_events, HD, HC, HS. reflexivity.
  - intros d' m.
    assert (Hin : forall ev, In ev (worker w m) ->
              In (Worker d', ev) (fst (iteration st (success w new)))).
    { intros ev Hev. unfold iteration, success.
      cbn [fetched ctxDone env fst]. apply in_app_iff. right.
      apply In_runUpdate. right. exists d'. auto. }
    split; [|split; [|split; [|split]]].
    + apply Hin. rewrite worker_events. left. reflexivity.
    + intros D. apply Hin. rewrite worker_events, D. right. left. reflexivity.
    + intros D C. apply Hin. rewrite worker_events, D, C.
      right. right. left. reflexivity.
    + intros err' D C S. apply Hin. rewrite worker_events, D, C, S.
      right. right. right. left. reflexivity.
    + rewrite eventsOf_cycle. fold cfg. fold m. apply worker_events.
  - intros w' d' Hd Hr Hl Hdis Hdiff Hset.
    rewrite !eventsOf_cycle, (loadConfig_ext w w' Hr Hl).
    apply worker_ext; [rewrite Hdis|rewrite Hdiff|]; try reflexivity.
    apply Hset. rewrite build_domainOf. exact Hd.
  - intros rest. rewrite loop_cons. reflexivity.
Qed.

(** C6. Loading the override configuration never aborts the cycle.  A
    missing file is not logged and gives the empty configuration; any
    other read error, and any parse error, is logged and gives the empty
    configuration as well; in every case all four domains are
    dispatched with the configuration that resulted. *)
Theorem config_errors_do_not_abort_the_cycle new old w :
  (forall err,
     ioutil_ReadFile w configPath = Err err -> os_IsNotExist err = true ->
     loadConfig w = ([], emptyConfig w)) /\
  (forall err,
     ioutil_ReadFile w configPath = Err err -> os_IsNotExist err = false ->
     loadConfig w = ([LogError err], emptyConfig w)) /\
  (forall bytes err,
     ioutil_ReadFile w configPath = Ok bytes ->
     ini_InsensitiveLoad w bytes = Err err -> os_IsNotExist err = false ->
     loadConfig w = ([LogError err], emptyConfig w)) /\
  (forall bytes file,
     ioutil_ReadFile w configPath = Ok bytes ->
     ini_InsensitiveLoad w bytes = Ok file ->
     loadConfig w = ([], Some file)) /\
  runUpdate new old w =
    tagged Watcher (fst (loadConfig w)) ++
    interleave (schedule w)
      (workers w (managers new old (snd (loadConfig w)))) /\
  (forall d,
     let m := build d new old (snd (loadConfig w)) in
     eventsOf (Worker d) (runUpdate new old w) = worker w m /\
     In (Worker d, CallDisabled m (mgr_disabled w m)) (runUpdate new old w)).
Proof.
  split; [|split; [|split; [|split; [|split]]]].
  - intros err Hr He. unfold loadConfig, parseConfig.
    rewrite Hr. simpl. rewrite He. reflexivity.
  - intros err Hr He. unfold loadConfig, parseConfig.
    rewrite Hr. simpl. rewrite He. reflexivity.
  - intros bytes err Hr Hl He. unfold loadConfig, parseConfig.
    rewrite Hr, Hl. simpl. rewrite He. reflexivity.
  - intros bytes file Hr Hl. unfold loadConfig, parseConfig.
    rewrite Hr, Hl. reflexivity.
  - apply runUpdate_shape.
  - intros d m. split; [apply eventsOf_runUpdate|].
    apply In_runUpdate. right. exists d. split; [reflexivity|].
    fold m. unfold worker. left. reflexivity.
Qed.

(** C7, as amended.  The instances that a cycle calls are built in that
    cycle from its inputs alone: [addresses], [accounts] and
    [diagnostics] from the previous snapshot, the current snapshot and
    the override configuration, and the cluster manager by
    [newWsfcManager] from the current snapshot and the override
    configuration, without the previous snapshot.  Nothing else of the
    loop's history (the error counter, earlier cycles) enters an
    instance. *)
Theorem managers_built_from_the_inputs_of_the_cycle st new w g ev m :
  In (g, ev) (fst (iteration st (success w new))) ->
  calledOn ev = Some m ->
  let cfg := snd (loadConfig w) in
  m = build (domainOf m) new (oldMetadata st) cfg /\
  newMetadataOf m = new /\
  configOf m = cfg /\
  oldMetadataOf m =
    (if domain_eqb (domainOf m) Wsfc then None else Some (oldMetadata st)) /\
  (domainOf m = Wsfc -> m = newWsfcManager new cfg).
Proof.
  intros Hin Hc cfg. unfold iteration, success in Hin.
  cbn [fetched ctxDone env fst] in Hin.
  apply in_app_iff in Hin. destruct Hin as [Hin|Hin].
  - apply In_tagged in Hin. destruct Hin as [_ [<-|[<-|[]]]]; discriminate.
  - destruct (call_in_runUpdate _ _ _ _ _ _ Hin Hc) as [_ [Hm _]].
    fold cfg in Hm. split; [exact Hm|].
    rewrite Hm, build_domainOf. destruct (domainOf m); simpl; auto;
      repeat split; auto; discriminate.
Qed.

(** C9.  Whatever number of fetches fail first, the first cycle is
    dispatched with the zero snapshot as the previous one, and nothing is
    dispatched before it.  In that cycle every domain of the dispatch (a
    domain that is not disabled) whose [diff] reports a change on an empty
    previous snapshot has its [set()] invoked, once: everything is applied
    fresh. *)
Theorem first_cycle_starts_from_the_zero_snapshot
    (zero : metadataJSON) pre new w :
  forallb isFailure pre = true ->
  exists tr st,
    loop pre (initialState zero) = (tr, Fetching st) /\
    (forall g ev, In (g, ev) tr -> isManagerCall ev = false) /\
    iteration st (success w new) =
      (tagged Watcher [WatchMetadata (Ok new); CtxDone false] ++
       runUpdate new zero w,
       Some {| oldMetadata := new; webError := 0 |}) /\
    (forall version,
       run zero version (pre ++ [success w new]) =
       (Main, LogInfo ("GCE Agent Started (version " ++ version ++ ")")%string)
       :: tr ++ tagged Watcher [WatchMetadata (Ok new); CtxDone false] ++
          runUpdate new zero w) /\
    forall d,
      let m := build d new zero (snd (loadConfig w)) in
      mgr_disabled w m = false ->
      (forall n c, mgr_diff w (build d n zero c) = true) ->
      exists logs,
        eventsOf (Worker d) (runUpdate new zero w) =
          CallDisabled m false :: CallDiff m true ::
          CallSet m (mgr_set w m) :: logs /\
        forallb isLog logs = true.
Proof.
  intros Hpre.
  destruct (loop_failures pre (initialState zero) Hpre)
    as [tr [st [Hl [Hold Hev]]]].
  assert (Hi : iteration st (success w new) =
      (tagged Watcher [WatchMetadata (Ok new); CtxDone false] ++
       runUpdate new zero w,
       Some {| oldMetadata := new; webError := 0 |})).
  { unfold iteration, success. cbn [fetched ctxDone env].
    rewrite Hold. reflexivity. }
  exists tr, st. split; [exact Hl|]. split; [|split; [|split]].
  - intros g ev Hin. apply (Hev g ev Hin).
  - exact Hi.
  - intros version. unfold run. rewrite loop_app, Hl, loop_cons, Hi.
    cbn [fst snd loop]. rewrite app_nil_r. reflexivity.
  - intros d m HD HC. specialize (HC new (snd (loadConfig w))). fold m in HC.
    rewrite eventsOf_runUpdate. fold m.
    destruct (worker_cases w m) as [[D _]|[[_ [C _]]|[_ [_ E]]]];
      [congruence|congruence|].
    rewrite E. eexists. split; [reflexivity|].
    destruct (mgr_set w m); reflexivity.
Qed.
End CycleClaims.

(** ** [main] *)

(** What [main] does for an action other than ["noservice"]. *)
Lemma main_service (register : serviceShim) (osArgs : list string) :
  actionOf osArgs <> "noservice"%string ->
  main register osArgs =
    LoggerInit "GCEWindowsAgent" "COM1" ::
    CallRegister "GCEAgent" "GCEAgent" "" (actionOf osArgs)
      (registerAgent register (actionOf osArgs)) ::
    match registerAgent register (actionOf osArgs) with
    | Some err => [LoggerFatal err]
    | None => []
    end.
Proof.
  intros Hne. unfold main.
  destruct (String.eqb_spec (actionOf osArgs) "noservice") as [E|_];
    [contradiction|reflexivity].
Qed.

(** C4, as amended.  Without an action argument the action is ["run"]: it
    is handed to [register], like an explicit ["run"], and [run] is not
    called by [main] itself.  [main] calls [run] itself exactly for the
    action ["noservice"]; that call never returns, because the context of
    [main] is never cancelled, so the process runs in the foreground until
    it is killed and [os.Exit(0)] is not reached.  For every other action
    an error returned by [register] is fatal: it is the last thing the
    process does. *)
Theorem main_dispatches_on_the_action
    (register : serviceShim) (osArgs : list string) :
  (forall program,
     actionOf [] = "run"%string /\ actionOf [program] = "run"%string /\
     main register [program] = main register [program; "run"%string]) /\
  (forall program action rest,
     actionOf (program :: action :: rest) = action) /\
  (actionOf osArgs = "noservice"%string ->
   main register osArgs = [LoggerInit "GCEWindowsAgent" "COM1"; CallRun]) /\
  (forall code, ~ In (OsExit code) (main register osArgs)) /\
  (actionOf osArgs <> "noservice"%string ->
   ~ In CallRun (main register osArgs) /\
   exists r,
     registerAgent register (actionOf osArgs) = r /\
     main register osArgs =
       LoggerInit "GCEWindowsAgent" "COM1" ::
       CallRegister "GCEAgent" "GCEAgent" "" (actionOf osArgs) r ::
       match r with
       | Some err => [LoggerFatal err]
       | None => []
       end) /\
  (forall err,
     actionOf osArgs <> "noservice"%string ->
     registerAgent register (actionOf osArgs) = Some err ->
     exists evs, main register osArgs = evs ++ [LoggerFatal err]).
Proof.
  split; [|split; [|split; [|split; [|split]]]].
  - intros program. repeat split.
  - intros program action rest. reflexivity.
  - intros E. unfold main. rewrite E. reflexivity.
  - intros code. unfold main.
    destruct (String.eqb (actionOf osArgs) "noservice"); simpl.
    + intuition discriminate.
    + destruct (registerAgent _ _); simpl; intuition discriminate.
  - intros Hne. split.
    + rewrite (main_service register osArgs Hne). simpl.
      destruct (registerAgent _ _); simpl; intuition discriminate.
    + eexists. split; [reflexivity|]. apply main_service, Hne.
  - intros err Hne Hr. rewrite (main_service register osArgs Hne), Hr.
    eexists [_; _]. reflexivity.
Qed.

(** * The properties on the sample environments *)
Module Witness.
Import Sample.
Local Open Scope string_scope.

(** C1 on a cycle in which every domain applies a change: the cluster
    manager's [set()] comes after its [disabled()] and [diff()]. *)
Lemma set_only_when_enabled_and_changed_witness :
  mgr_disabled calm (newWsfcManager "{}" noOverride) = false /\
  mgr_diff calm (newWsfcManager "{}" noOverride) = true /\
  exists logs,
    eventsOf (Worker Wsfc) (runUpdate "{}" zero calm) =
    (CallDisabled (newWsfcManager "{}" noOverride) false ::
     CallDiff (newWsfcManager "{}" noOverride) true ::
     CallSet (newWsfcManager "{}" noOverride) None :: logs)%list.
Proof.
  apply (proj1 (set_only_when_enabled_and_changed "{}" zero calm)
           (Worker Wsfc) (newWsfcManager "{}" noOverride) None).
  simpl. repeat (first [left; reflexivity | right]).
Defined.

(** C2: the second failure of a streak logs the hint and the error. *)
Lemma second_consecutive_failure_is_logged_witness :
  exists tr st',
    loop [failure calm deadline] (initialState zero) = (tr, Fetching st') /\
    webError st' = 1%Z /\
    logsOf (fst (iteration st' (failure unreadable lookupFailed))) =
    [(Watcher, LogErrorMsg dnsHint); (Watcher, LogError lookupFailed)].
Proof.
  destruct (second_consecutive_failure_is_logged
              (initialState zero) [failure calm deadline] lookupFailed
              false unreadable eq_refl eq_refl)
    as [tr [st' [Hl [Hc [Hlogs _]]]]].
  - simpl. unfold GoInt.max_int, GoInt.bits. lia.
  - exists tr, st'. split; [exact Hl|]. split; [exact Hc|exact Hlogs].
Defined.

(** C3: the addresses manager fails to apply; the three other managers
    are called, change the host and log nothing, and the snapshot
    advances. *)
Lemma set_error_is_logged_and_isolated_witness :
  exists tr,
    iteration afterACycle (success addressesFail "{}") =
      (tr, Some {| oldMetadata := "{}"; webError := 0 |}) /\
    eventsOf (Worker Addresses) tr =
      [CallDisabled (addresses "{previous}" "{}" noOverride) false;
       CallDiff (addresses "{previous}" "{}" noOverride) true;
       CallSet (addresses "{previous}" "{}" noOverride) (Some setFailed);
       LogError setFailed]%list /\
    eventsOf (Worker Accounts) tr =
      [CallDisabled (accounts "{previous}" "{}" noOverride) false;
       CallDiff (accounts "{previous}" "{}" noOverride) true;
       CallSet (accounts "{previous}" "{}" noOverride) None]%list /\
    eventsOf (Worker Wsfc) tr =
      [CallDisabled (newWsfcManager "{}" noOverride) false;
       CallDiff (newWsfcManager "{}" noOverride) true;
       CallSet (newWsfcManager "{}" noOverride) None]%list /\
    eventsOf (Worker Diagnostics) tr =
      [CallDisabled (diagnostics "{previous}" "{}" noOverride) false;
       CallDiff (diagnostics "{previous}" "{}" noOverride) true;
       CallSet (diagnostics "{previous}" "{}" noOverride) None]%list /\
    In (Worker Accounts,
        CallSet (accounts "{previous}" "{}" noOverride) None) tr.
Proof.
  destruct (set_error_is_logged_and_isolated
              afterACycle "{}" addressesFail Addresses setFailed
              eq_refl eq_refl eq_refl)
    as [tr [Hi [Hev [Hall _]]]].
  exists tr. split; [exact Hi|]. split; [exact Hev|].
  split; [exact (proj2 (proj2 (proj2 (proj2 (Hall Accounts)))))|].
  split; [exact (proj2 (proj2 (proj2 (proj2 (Hall Wsfc)))))|].
  split; [exact (proj2 (proj2 (proj2 (proj2 (Hall Diagnostics)))))|].
  exact (proj1 (proj2 (proj2 (Hall Accounts))) eq_refl eq_refl).
Defined.

(** C4: an action that the service shim does not know is fatal. *)
Lemma main_dispatches_on_the_action_witness :
  exists evs,
    main register [program; "frobnicate"] =
    (evs ++ [LoggerFatal (errorString "unknown action frobnicate")])%list.
Proof.
  apply (proj2 (proj2 (proj2 (proj2 (proj2
           (main_dispatches_on_the_action register
              [program; "frobnicate"])))))).
  - simpl. discriminate.
  - reflexivity.
Defined.

(** C6: an override file that cannot be read is logged and replaced by
    the empty configuration. *)
Lemma config_errors_do_not_abort_the_cycle_witness :
  loadConfig unreadable = ([LogError accessDenied], noOverride)%list /\
  loadConfig garbled =
    ([LogError (errorString "key-value delimiter not found")],
     noOverride)%list.
Proof.
  split.
  - apply (proj1 (proj2 (config_errors_do_not_abort_the_cycle
                           "{}" zero unreadable)) accessDenied).
    + reflexivity.
    + reflexivity.
  - apply (proj1 (proj2 (proj2 (config_errors_do_not_abort_the_cycle
                                  "{}" zero garbled)))
             [x5b; x5b]%list (errorString "key-value delimiter not found")).
    + reflexivity.
    + reflexivity.
    + reflexivity.
Defined.

(** C7: the instance on which the accounts worker calls [disabled()]. *)
Lemma managers_built_from_the_inputs_of_the_cycle_witness :
  accounts "{previous}" "{}" noOverride =
    build Accounts "{}" "{previous}" (snd (loadConfig calm)) /\
  oldMetadataOf (accounts "{previous}" "{}" noOverride) = Some "{previous}".
Proof.
  destruct (managers_built_from_the_inputs_of_the_cycle
              afterACycle "{}" calm (Worker Accounts)
              (CallDisabled (accounts "{previous}" "{}" noOverride) false)
              (accounts "{previous}" "{}" noOverride))
    as [Hm [_ [_ [Hold _]]]].
  - simpl. repeat (first [left; reflexivity | right]).
  - reflexivity.
  - split; [exact Hm|exact Hold].
Defined.

(** C9: one failed fetch, then the first cycle. *)
Lemma first_cycle_starts_from_the_zero_snapshot_witness :
  exists tr st,
    loop [failure calm unreachable] (initialState zero) = (tr, Fetching st) /\
    iteration st (success calm "{}") =
      ((tagged Watcher [WatchMetadata (Ok "{}"); CtxDone false] ++
        runUpdate "{}" zero calm)%list,
       Some {| oldMetadata := "{}"; webError := 0 |}) /\
    exists logs,
      eventsOf (Worker Diagnostics) (runUpdate "{}" zero calm) =
      (CallDisabled (diagnostics zero "{}" noOverride) false ::
       CallDiff (diagnostics zero "{}" noOverride) true ::
       CallSet (diagnostics zero "{}" noOverride) None :: logs)%list /\
      forallb isLog logs = true.
Proof.
  destruct (first_cycle_starts_from_the_zero_snapshot
              zero [failure calm unreachable] "{}" calm eq_refl)
    as [tr [st [Hl [_ [Hi [_ Hset]]]]]].
  exists tr, st. split; [exact Hl|]. split; [exact Hi|].
  apply (Hset Diagnostics).
  - reflexivity.
  - intros n c. reflexivity.
Defined.
End Witness.

(** * Where the specification departs from the program *)
Module Counterexample.
Import Sample.
Local Open Scope string_scope.

(** C4.  Started without an argument the process does not run the loop
    in the foreground: it does not do what it does for ["noservice"],
    and [main] never calls [run] itself. *)
Lemma no_argument_is_not_the_foreground_run :
  main register [program] <> main register [program; "noservice"] /\
  ~ In CallRun (main register [program]) /\
  main register [program; "noservice"] =
    [LoggerInit "GCEWindowsAgent" "COM1"; CallRun]%list /\
  main register [program] =
    [LoggerInit "GCEWindowsAgent" "COM1";
     CallRegister "GCEAgent" "GCEAgent" "" "run" None]%list.
Proof.
  split; [discriminate|]. split; [|split; [|reflexivity]].
  - simpl. intuition discriminate.
  - reflexivity.
Qed.

(** C7.  Not every instance of a cycle is constructed from the previous
    snapshot, the current snapshot and the override configuration: the
    cluster manager is constructed without the previous snapshot. *)
Lemma wsfc_manager_is_built_without_the_previous_snapshot :
  ~ (forall g ev m,
       In (g, ev)
          (fst (iteration afterACycle (success calm "{}"))) ->
       calledOn ev = Some m ->
       oldMetadataOf m = Some "{previous}" /\
       newMetadataOf m = "{}" /\
       configOf m = snd (loadConfig calm)).
Proof.
  intros H.
  destruct (H (Worker Wsfc)
              (CallDisabled (newWsfcManager "{}" noOverride) false)
              (newWsfcManager "{}" noOverride)) as [Hold _].
  - simpl. repeat (first [left; reflexivity | right]).
  - reflexivity.
  - discriminate Hold.
Qed.
End Counterexample.


(** * Further properties of the program *)

(** ** The life of the watch loop *)
Section LoopLife.
Context {metadataJSON iniFile : Type}.
Implicit Types (w : @world metadataJSON iniFile).
Implicit Types (st : @loopState metadataJSON).
Implicit Types (i : @tick metadataJSON iniFile).
Implicit Types (inputs pre rest : list (@tick metadataJSON iniFile)).
Implicit Types (new old : metadataJSON) (d : domain).

Lemma iteration_cancel st i :
  isCancel i = true ->
  exists new,
    fetched i = Ok new /\
    iteration st i =
      (tagged Watcher [WatchMetadata (Ok new); CtxDone true], None).
Proof.
  unfold isCancel, iteration. destruct (fetched i) as [new|err];
    [|discriminate].
  intros ->. eauto.
Qed.

Lemma iteration_continues st i :
  isCancel i = false -> exists st', snd (iteration st i) = Some st'.
Proof.
  unfold isCancel, iteration. destruct (fetched i) as [new|err].
  - intros ->. eexists. reflexivity.
  - intros _. eexists. reflexivity.
Qed.

Lemma loop_returned inputs : forall st,
  snd (loop inputs st) = Returned <-> existsb isCancel inputs = true.
Proof.
  induction inputs as [|i inputs IH]; intros st.
  - simpl. split; discriminate.
  - rewrite loop_cons. cbn [existsb]. destruct (isCancel i) eqn:Hc.
    + destruct (iteration_cancel st i Hc) as [new [_ ->]].
      simpl. split; reflexivity.
    + destruct (iteration_continues st i Hc) as [st' ->].
      simpl. apply IH.
Qed.

Lemma loop_of_consumed inputs : forall st,
  loop inputs st = loop (consumed inputs) st.
Proof.
  induction inputs as [|i inputs IH]; intros st; [reflexivity|].
  cbn [consumed]. destruct (isCancel i) eqn:Hc.
  - rewrite !loop_cons. destruct (iteration_cancel st i Hc) as [new [_ ->]].
    reflexivity.
  - rewrite !loop_cons. destruct (iteration_continues st i Hc) as [st' ->].
    rewrite IH. reflexivity.
Qed.

Lemma consumed_prefix inputs : exists rest, inputs = consumed inputs ++ rest.
Proof.
  induction inputs as [|i inputs [rest IH]]; [exists []; reflexivity|].
  cbn [consumed]. destruct (isCancel i).
  - exists inputs. reflexivity.
  - exists rest. simpl. rewrite <- IH. reflexivity.
Qed.

Lemma loop_last_events inputs : forall st,
  snd (loop inputs st) = Returned ->
  exists tr new,
    fst (loop inputs st) =
    tr ++ tagged Watcher [WatchMetadata (Ok new); CtxDone true].
Proof.
  induction inputs as [|i inputs IH]; intros st; [discriminate|].
  rewrite loop_cons. destruct (isCancel i) eqn:Hc.
  - destruct (iteration_cancel st i Hc) as [new [_ ->]]. intros _.
    exists [], new. reflexivity.
  - destruct (iteration_continues st i Hc) as [st' E]. rewrite E.
    cbn [fst snd]. intros Hr. destruct (IH st' Hr) as [tr [new Htr]].
    exists (fst (iteration st i) ++ tr), new.
    rewrite Htr, app_assoc. reflexivity.
Qed.

(** X1. The goroutine of the watch loop returns exactly when a successful
    fetch finds the context done.  Failed fetches, configuration errors
    and errors of [set()] never end it: without such an input it is, after
    any inputs, about to fetch again. *)
Theorem loop_returns_only_on_cancellation inputs st :
  (snd (loop inputs st) = Returned <-> existsb isCancel inputs = true) /\
  (existsb isCancel inputs = false ->
   exists st', snd (loop inputs st) = Fetching st').
Proof.
  split; [apply loop_returned|].
  intros Hno. destruct (snd (loop inputs st)) as [st'|] eqn:E; [eauto|].
  apply loop_returned in E. congruence.
Qed.

(** X2. Once the goroutine has returned nothing more happens: the inputs
    after the one at which it returns have no effect, and the last thing it
    did was to find the context done after a successful fetch. *)
Theorem loop_does_nothing_after_return inputs st :
  loop inputs st = loop (consumed inputs) st /\
  (exists rest, inputs = consumed inputs ++ rest) /\
  (snd (loop inputs st) = Returned ->
   exists tr new,
     fst (loop inputs st) =
     tr ++ tagged Watcher [WatchMetadata (Ok new); CtxDone true]).
Proof.
  split; [apply loop_of_consumed|]. split; [apply consumed_prefix|].
  apply loop_last_events.
Qed.

(** Events of a cycle are log entries and manager calls. *)
Lemma runUpdate_events new old w g ev :
  In (g, ev) (runUpdate new old w) ->
  isLog ev = true \/ isManagerCall ev = true.
Proof.
  intros Hin. apply In_runUpdate in Hin.
  destruct Hin as [[_ Hlog]|[d [_ Hin]]].
  - apply loadConfig_logs in Hlog. destruct Hlog as [err ->]. auto.
  - worker_event Hin; auto.
Qed.

Lemma filter_none {A : Type} (P : A -> bool) (l : list A) :
  (forall x, In x l -> P x = false) -> filter P l = [].
Proof.
  induction l as [|a l IH]; intros H; [reflexivity|].
  simpl. rewrite (H a) by (left; reflexivity).
  apply IH. intros x Hx. apply H. right. exact Hx.
Qed.

Lemma sleepsOf_app (t1 t2 : @trace metadataJSON iniFile) :
  sleepsOf (t1 ++ t2) = sleepsOf t1 ++ sleepsOf t2.
Proof. unfold sleepsOf. rewrite map_app. apply filter_app. Qed.

Lemma sleepsOf_runUpdate new old w : sleepsOf (runUpdate new old w) = [].
Proof.
  unfold sleepsOf. apply filter_none. intros ev Hin.
  apply in_map_iff in Hin. destruct Hin as [[g ev'] [E Hin]].
  simpl in E. subst ev'.
  destruct (runUpdate_events _ _ _ _ _ Hin) as [H|H];
    destruct ev; simpl in H; try discriminate; reflexivity.
Qed.

Lemma sleepsOf_iteration st i :
  sleepsOf (fst (iteration st i)) =
  if isFailure i then [Sleep 5000000000] else [].
Proof.
  unfold isFailure, iteration. destruct (fetched i) as [new|err].
  - destruct (ctxDone i); cbn [fst]; [reflexivity|].
    rewrite sleepsOf_app, sleepsOf_runUpdate. reflexivity.
  - cbn [fst]. unfold sleepsOf, tagged. rewrite map_map. cbn [snd].
    rewrite map_id. cbn [filter isSleep]. rewrite filter_app.
    rewrite filter_none; [reflexivity|].
    intros ev Hin.
    pose proof (fetchErrorLogs_logs (iniFile:=iniFile) st err) as Hlogs.
    rewrite forallb_forall in Hlogs. specialize (Hlogs _ Hin).
    destruct ev; simpl in Hlogs; try discriminate; reflexivity.
Qed.

(** X3. The loop sleeps once, for five seconds, after every failed fetch,
    and at no other time: not in a cycle, not before returning. *)
Theorem loop_sleeps_once_per_failed_fetch inputs : forall st,
  sleepsOf (fst (loop inputs st)) =
  repeat (Sleep (5 * time_Second))
         (length (filter isFailure (consumed inputs))).
Proof.
  induction inputs as [|i inputs IH]; intros st; [reflexivity|].
  rewrite loop_cons. cbn [consumed].
  assert (Hf : isCancel i = true -> isFailure i = false).
  { unfold isCancel, isFailure. destruct (fetched i); [reflexivity|discriminate]. }
  destruct (isCancel i) eqn:Hc.
  - destruct (iteration_cancel st i Hc) as [new [_ ->]].
    cbn [fst snd filter]. rewrite (Hf eq_refl). reflexivity.
  - destruct (iteration_continues st i Hc) as [st' E]. rewrite E.
    cbn [fst snd filter]. rewrite sleepsOf_app, sleepsOf_iteration, IH.
    destruct (isFailure i); reflexivity.
Qed.

(** X4. While the loop runs, its previous snapshot is the snapshot of the
    last successful fetch, or the one it started with when no fetch has
    succeeded yet; failed fetches in between leave it alone. *)
Theorem previous_snapshot_is_the_last_fetched inputs : forall st st',
  snd (loop inputs st) = Fetching st' ->
  oldMetadata st' = lastFetched (oldMetadata st) inputs.
Proof.
  induction inputs as [|i inputs IH]; intros st st' H.
  - simpl in H. injection H as <-. reflexivity.
  - rewrite loop_cons in H. unfold lastFetched. cbn [fold_left].
    fold (lastFetched (match fetched i with
                       | Ok new => new
                       | Err _ => oldMetadata st
                       end) inputs).
    unfold iteration in H. destruct (fetched i) as [new|err].
    + destruct (ctxDone i); [discriminate|].
      cbn [fst snd] in H. apply IH in H. exact H.
    + cbn [fst snd] in H. apply IH in H. exact H.
Qed.
End LoopLife.

(** ** The succession of cycles *)
Section Succession.
Context {metadataJSON iniFile : Type}.
Implicit Types (w : @world metadataJSON iniFile).
Implicit Types (st : @loopState metadataJSON).
Implicit Types (i : @tick metadataJSON iniFile).
Implicit Types (inputs : list (@tick metadataJSON iniFile)).
Implicit Types (new old : metadataJSON) (d : domain).

Lemma instancesOf_app d (t1 t2 : @trace metadataJSON iniFile) :
  instancesOf d (t1 ++ t2) = instancesOf d t1 ++ instancesOf d t2.
Proof. unfold instancesOf. rewrite eventsOf_app. apply flat_map_app. Qed.

Lemma instancesOf_watcher d (evs : list (@event metadataJSON iniFile)) :
  instancesOf d (tagged Watcher evs) = [].
Proof. unfold instancesOf. rewrite eventsOf_tagged. reflexivity. Qed.

(** A worker calls [disabled()] once, on its own instance. *)
Lemma instanceCalled_worker w (m : @manager metadataJSON iniFile) :
  flat_map instanceCalled (worker w m) = [m].
Proof.
  destruct (worker_cases w m) as [[_ E]|[[_ [_ E]]|[_ [_ E]]]]; rewrite E.
  - reflexivity.
  - reflexivity.
  - simpl. destruct (mgr_set w m); reflexivity.
Qed.

Lemma instancesOf_runUpdate d new old w :
  instancesOf d (runUpdate new old w) =
  [build d new old (snd (loadConfig w))].
Proof.
  unfold instancesOf. rewrite eventsOf_runUpdate. apply instanceCalled_worker.
Qed.

Lemma cycles_chained inputs : forall old, chained old (cycles old inputs).
Proof.
  induction inputs as [|i inputs IH]; intros old; simpl.
  - constructor.
  - destruct (fetched i) as [new|err]; [|apply IH].
    destruct (ctxDone i); constructor. apply IH.
Qed.

(** X5. In every run of the loop each domain gets exactly one instance
    per cycle, and the instances follow the fetches: there is a cycle for
    every successful fetch until the context is found done, none for a
    failed fetch, and the previous snapshot of each cycle is the current
    snapshot of the cycle before it (for the first one, the snapshot the
    loop started with). *)
Theorem one_instance_per_cycle_in_succession d inputs : forall st,
  instancesOf d (fst (loop inputs st)) =
    map (fun c => build d (fst (fst c)) (snd (fst c))
                    (snd (loadConfig (snd c))))
        (cycles (oldMetadata st) inputs) /\
  chained (oldMetadata st) (cycles (oldMetadata st) inputs).
Proof.
  intros st. split; [|apply cycles_chained].
  revert st. induction inputs as [|i inputs IH]; intros st; [reflexivity|].
  rewrite loop_cons. unfold iteration. cbn [cycles].
  destruct (fetched i) as [new|err].
  - destruct (ctxDone i); cbn [fst snd].
    + apply instancesOf_watcher.
    + rewrite !instancesOf_app, instancesOf_watcher, instancesOf_runUpdate.
      rewrite IH. reflexivity.
  - cbn [fst snd]. rewrite instancesOf_app, instancesOf_watcher, IH.
    reflexivity.
Qed.

Lemma silentOf_app (t1 t2 : @trace metadataJSON iniFile) :
  silentOf (t1 ++ t2) = silentOf t1 ++ silentOf t2.
Proof. apply filter_app. Qed.

(** Without its log entries, the failure branch is the fetch followed by
    the sleep. *)
Lemma silentOf_failure st i err :
  fetched i = Err err ->
  silentOf (fst (iteration st i)) =
  tagged Watcher [WatchMetadata (Err err); Sleep (5 * time_Second)].
Proof.
  intros E. rewrite (iteration_failure st i err E). cbn [fst].
  unfold silentOf, tagged. cbn [map filter snd isLog negb].
  rewrite map_app, filter_app. cbn [map filter snd isLog negb].
  rewrite filter_none; [reflexivity|].
  intros [g ev] Hin. apply in_map_iff in Hin.
  destruct Hin as [ev' [Hev Hin]]. injection Hev as _ <-.
  pose proof (fetchErrorLogs_logs (iniFile:=iniFile) st err) as Hlogs.
  rewrite forallb_forall in Hlogs. cbn [snd].
  rewrite (Hlogs _ Hin). reflexivity.
Qed.

Lemma loop_silent inputs : forall st1 st2,
  oldMetadata st1 = oldMetadata st2 ->
  silentOf (fst (loop inputs st1)) = silentOf (fst (loop inputs st2)) /\
  (snd (loop inputs st1) = Returned <-> snd (loop inputs st2) = Returned).
Proof.
  induction inputs as [|i inputs IH]; intros st1 st2 Hold.
  - simpl. split; [reflexivity|]. split; discriminate.
  - rewrite !loop_cons. destruct (fetched i) as [new|err] eqn:E.
    + unfold iteration. rewrite E, Hold.
      destruct (ctxDone i); cbn [fst snd]; [tauto|].
      split; reflexivity.
    + rewrite (iteration_failure st1 i err E).
      rewrite (iteration_failure st2 i err E). cbn [fst snd].
      rewrite !silentOf_app.
      pose proof (silentOf_failure st1 i err E) as H1.
      pose proof (silentOf_failure st2 i err E) as H2.
      rewrite (iteration_failure st1 i err E) in H1.
      rewrite (iteration_failure st2 i err E) in H2. cbn [fst] in H1, H2.
      rewrite H1, H2.
      destruct (IH {| oldMetadata := oldMetadata st1;
                      webError := GoInt.incr (webError st1) |}
                   {| oldMetadata := oldMetadata st2;
                      webError := GoInt.incr (webError st2) |} Hold)
        as [Htr Hst].
      rewrite Htr. split; [reflexivity|exact Hst].
Qed.

(** X6. The error counter decides what is logged and nothing else: two
    runs of the loop on the same inputs that differ in the counter alone
    fetch, sleep, check the context and call the managers alike, and
    return or not alike. *)
Theorem error_counter_affects_only_the_log inputs st (n : Z) :
  let st' := {| oldMetadata := oldMetadata st; webError := n |} in
  silentOf (fst (loop inputs st')) = silentOf (fst (loop inputs st)) /\
  (snd (loop inputs st') = Returned <-> snd (loop inputs st) = Returned).
Proof. intros st'. apply loop_silent. reflexivity. Qed.
End Succession.

(** ** More on one cycle *)
Section CycleExtras.
Context {metadataJSON iniFile : Type}.
Implicit Types (w : @world metadataJSON iniFile).
Implicit Types (m : @manager metadataJSON iniFile).
Implicit Types (new old : metadataJSON) (d : domain) (g : goroutine).

Lemma Permutation_filter_length {A : Type} (f : A -> bool) (l l' : list A) :
  Permutation l l' -> length (filter f l) = length (filter f l').
Proof.
  induction 1 as [|x l l' _ IH|x y l|l l' l'' _ IH1 _ IH2]; simpl.
  - reflexivity.
  - destruct (f x); simpl; congruence.
  - destruct (f x), (f y); reflexivity.
  - congruence.
Qed.

Lemma calls_of_worker w m d :
  length (filter isManagerCall (map snd (tagged (Worker d) (worker w m)))) =
  callsMade w m.
Proof.
  unfold tagged, callsMade. rewrite map_map. cbn [snd]. rewrite map_id.
  destruct (worker_cases w m) as [[D E]|[[D [C E]]|[D [C E]]]];
    rewrite E, D, ?C; try reflexivity.
  simpl. destruct (mgr_set w m); reflexivity.
Qed.

Lemma callsMade_bounds w m : (1 <= callsMade w m <= 3)%nat.
Proof.
  unfold callsMade. destruct (mgr_disabled w m), (mgr_diff w m); lia.
Qed.

(** X8. Whatever the schedule, a cycle calls [disabled()] on each of the
    four managers, [diff()] on those that are not disabled and [set()] on
    those that also report a change: between four and twelve calls in
    all. *)
Theorem cycle_makes_four_to_twelve_calls new old w :
  length (callsOf (runUpdate new old w)) =
    list_sum (map (callsMade w) (managers new old (snd (loadConfig w)))) /\
  (4 <= length (callsOf (runUpdate new old w)) <= 12)%nat.
Proof.
  assert (E : length (callsOf (runUpdate new old w)) =
    list_sum (map (callsMade w) (managers new old (snd (loadConfig w))))).
  { unfold callsOf. rewrite runUpdate_shape.
    rewrite (Permutation_filter_length isManagerCall _ _
               (Permutation_map snd
                  (Permutation_app_head _ (interleave_perm _ _ _)))).
    rewrite map_app, filter_app, length_app.
    rewrite (filter_none isManagerCall).
    - unfold managers, domains, workers. cbn [map concat list_sum].
      rewrite !map_app, !filter_app, !length_app, !calls_of_worker.
      simpl. lia.
    - intros ev Hin. apply in_map_iff in Hin.
      destruct Hin as [[g ev'] [<- Hin]]. apply In_tagged in Hin.
      destruct Hin as [_ Hin]. apply loadConfig_logs in Hin.
      destruct Hin as [err ->]. reflexivity. }
  split; [exact E|]. rewrite E. unfold managers, domains.
  cbn [map list_sum fold_right].
  pose proof (callsMade_bounds w (build Addresses new old (snd (loadConfig w)))).
  pose proof (callsMade_bounds w (build Accounts new old (snd (loadConfig w)))).
  pose proof (callsMade_bounds w (build Wsfc new old (snd (loadConfig w)))).
  pose proof (callsMade_bounds w (build Diagnostics new old (snd (loadConfig w)))).
  lia.
Qed.

(** The error that [runUpdate] logs for the configuration. *)
Lemma loadConfig_logs_error w ev :
  In ev (fst (loadConfig w)) ->
  exists err, ev = LogError err /\
              snd (parseConfig w configPath) = Some err /\
              os_IsNotExist err = false.
Proof.
  unfold loadConfig. destruct (parseConfig w configPath) as [cfg [e|]];
    simpl; [|contradiction].
  destruct (os_IsNotExist e) eqn:E; simpl; [contradiction|].
  intros [<-|[]]. eauto.
Qed.

(** X9. A cycle logs nothing of its own accord: every log entry of a cycle
    is an error, and it is either the error of loading the override
    configuration (one that is not "file not found"), logged by the
    watcher, or the error that the [set()] of the logging worker's own
    manager has just returned. *)
Theorem cycle_logs_only_errors_that_occurred new old w g ev :
  In (g, ev) (runUpdate new old w) ->
  isLog ev = true ->
  exists err,
    ev = LogError err /\
    ((g = Watcher /\
      snd (parseConfig w configPath) = Some err /\
      os_IsNotExist err = false) \/
     (exists d,
        g = Worker d /\
        mgr_disabled w (build d new old (snd (loadConfig w))) = false /\
        mgr_diff w (build d new old (snd (loadConfig w))) = true /\
        mgr_set w (build d new old (snd (loadConfig w))) = Some err)).
Proof.
  intros Hin Hlog. apply In_runUpdate in Hin.
  destruct Hin as [[-> Hin]|[d [-> Hin]]].
  - apply loadConfig_logs_error in Hin.
    destruct Hin as [err [-> [Hp Hn]]]. exists err. auto.
  - worker_event Hin; try discriminate Hlog.
    eexists. split; [reflexivity|]. right. exists d. auto.
Qed.

Lemma loadConfig_not_nil w (empty : iniFile) :
  ini_InsensitiveLoad w [] = Ok empty ->
  exists file, snd (loadConfig w) = Some file.
Proof.
  intros He. unfold loadConfig, parseConfig, emptyConfig. rewrite He.
  destruct (ioutil_ReadFile w configPath) as [bytes|err]; simpl.
  - destruct (ini_InsensitiveLoad w bytes); simpl; eauto.
  - eauto.
Qed.

Lemma build_configOf d new old (cfg : option iniFile) :
  configOf (build d new old cfg) = cfg.
Proof. destruct d; reflexivity. Qed.

(** X10. When the parser accepts the empty file, no manager is ever given a
    nil configuration, whatever happens to the override file: every
    instance that a cycle calls holds one and the same configuration. *)
Theorem managers_never_get_a_nil_config new old w (empty : iniFile) :
  ini_InsensitiveLoad w [] = Ok empty ->
  exists file,
    snd (loadConfig w) = Some file /\
    forall g ev m,
      In (g, ev) (runUpdate new old w) -> calledOn ev = Some m ->
      configOf m = Some file.
Proof.
  intros He. destruct (loadConfig_not_nil w empty He) as [file Hf].
  exists file. split; [exact Hf|].
  intros g ev m Hin Hc.
  destruct (call_in_runUpdate _ _ _ _ _ _ Hin Hc) as [_ [-> _]].
  rewrite build_configOf. exact Hf.
Qed.
End CycleExtras.

(** ** More on [main] *)

(** X11. [main] reads nothing of [os.Args] but the first argument: the
    program name and any further argument make no difference, and an empty
    argument vector is treated like a missing argument. *)
Theorem main_reads_only_the_first_argument (register : serviceShim)
    (program program' action : string) (rest rest' : list string) :
  main register (program :: action :: rest) =
    main register (program' :: action :: rest') /\
  main register [] = main register [program] /\
  (forall osArgs osArgs',
     actionOf osArgs = actionOf osArgs' ->
     main register osArgs = main register osArgs').
Proof.
  split; [reflexivity|]. split; [reflexivity|].
  intros osArgs osArgs' E. unfold main. rewrite E. reflexivity.
Qed.

(** ** More on [containsString] *)
Lemma containsString_In (s : string) (ss : list string) :
  containsString s ss = true <-> In s ss.
Proof.
  induction ss as [|a ss IH]; simpl.
  - split; [discriminate|contradiction].
  - destruct (String.eqb_spec a s) as [->|Hne].
    + split; auto.
    + rewrite IH. split; [auto|]. intros [E|H]; [contradiction|exact H].
Qed.

(** X12. Searching a concatenation is searching its parts: a string is in
    [l1 ++ l2] exactly when it is in [l1] or in [l2]. *)
Theorem containsString_app (s : string) (l1 l2 : list string) :
  containsString s (l1 ++ l2) = containsString s l1 || containsString s l2.
Proof.
  induction l1 as [|a l1 IH]; simpl; [reflexivity|].
  destruct (String.eqb a s); [reflexivity|exact IH].
Qed.

(** X13. Only the elements of the list matter to [containsString], not
    their order nor how often they occur: a list that includes another
    contains every string the other contains, and two lists with the same
    elements give the same answers. *)
Theorem containsString_depends_on_the_elements_only
    (s : string) (l1 l2 : list string) :
  (incl l1 l2 -> containsString s l1 = true -> containsString s l2 = true) /\
  (incl l1 l2 -> incl l2 l1 -> containsString s l1 = containsString s l2).
Proof.
  assert (Hincl : forall a b, incl a b ->
            containsString s a = true -> containsString s b = true).
  { intros a b Hab Ha. apply containsString_In. apply Hab.
    apply containsString_In. exact Ha. }
  split; [apply Hincl|].
  intros H12 H21.
  destruct (containsString s l1) eqn:E1, (containsString s l2) eqn:E2;
    try reflexivity.
  - rewrite (Hincl l1 l2 H12 E1) in E2. discriminate.
  - rewrite (Hincl l2 l1 H21 E2) in E1. discriminate.
Qed.

(** ** [writeSerial] *)

(** X14. [writeSerial] opens the port once, at 115200 baud, and closes it
    exactly when it has opened it, also when the write fails; it writes the
    whole message at most once and never to a port that did not open.  It
    returns the error of the open or else the error of the write, and nil
    only when the message went to an opened port that was closed again. *)
Theorem writeSerial_closes_what_it_opens (Port : Type)
    (lib : serialLibrary Port) (port : string) (msg : list byte) :
  let c := {| Name := port; Baud := 115200 |} in
  let tr := fst (writeSerial lib port msg) in
  let r := snd (writeSerial lib port msg) in
  (exists rest, tr = OpenPort c :: rest /\
                forall c', ~ In (OpenPort c') rest) /\
  filter (@isClose Port) tr =
    match serial_OpenPort lib c with
    | Ok s => [PortClose s]
    | Err _ => []
    end /\
  filter (@isWrite Port) tr =
    match serial_OpenPort lib c with
    | Ok s => [PortWrite s msg]
    | Err _ => []
    end /\
  (r = None ->
   exists s n,
     serial_OpenPort lib c = Ok s /\ port_Write lib s msg = (n, None) /\
     tr = [OpenPort c; PortWrite s msg; PortClose s]) /\
  (forall err, r = Some err ->
     serial_OpenPort lib c = Err err \/
     exists s n,
       serial_OpenPort lib c = Ok s /\ port_Write lib s msg = (n, Some err) /\
       tr = [OpenPort c; PortWrite s msg; PortClose s]).
Proof.
  intros c tr r. subst tr r. unfold writeSerial. fold c.
  destruct (serial_OpenPort lib c) as [s|err]; cbn [fst snd].
  - destruct (port_Write lib s msg) as [n e] eqn:Ew. cbn [fst snd].
    split; [|split; [reflexivity|split; [reflexivity|split]]].
    + eexists. split; [reflexivity|].
      intros c' [H|[H|[]]]; discriminate H.
    + intros ->. exists s, n. auto.
    + intros err ->. right. exists s, n. auto.
  - split; [|split; [reflexivity|split; [reflexivity|split]]].
    + exists []. split; [reflexivity|]. intros c' [].
    + discriminate.
    + intros err' H. injection H as <-. left. reflexivity.
Qed.

(** ** [logStatus] *)
Lemma list_ascii_of_string_app (a b : string) :
  list_ascii_of_string (a ++ b) =
  list_ascii_of_string a ++ list_ascii_of_string b.
Proof.
  induction a as [|c a IH]; simpl; [reflexivity|]. rewrite IH. reflexivity.
Qed.

Lemma string_app_inv_tail (a b c : string) :
  (a ++ c = b ++ c)%string -> a = b.
Proof.
  intros H. apply (f_equal list_ascii_of_string) in H.
  rewrite !list_ascii_of_string_app in H. apply app_inv_tail in H.
  rewrite <- (string_of_list_ascii_of_string a),
          <- (string_of_list_ascii_of_string b), H.
  reflexivity.
Qed.

(** No name turns "enabled" into "disabled". *)
Lemma status_suffixes_differ (a b : string) :
  (a ++ " manager status: enabled" <> b ++ " manager status: disabled")%string.
Proof.
  intros H. apply (f_equal list_ascii_of_string) in H.
  rewrite !list_ascii_of_string_app in H.
  apply (f_equal (@rev ascii)) in H. rewrite !rev_app_distr in H.
  simpl in H. discriminate H.
Qed.

(** X15. The status line of [logStatus] tells the manager and its state
    apart: it is one informational entry, and two calls log the same line
    only for the same name and the same state. *)
Theorem logStatus_line_is_unambiguous (metadataJSON iniFile : Type)
    (name1 name2 : string) (disabled1 disabled2 : bool) :
  @logStatus metadataJSON iniFile name1 disabled1 =
  @logStatus metadataJSON iniFile name2 disabled2 ->
  name1 = name2 /\ disabled1 = disabled2.
Proof.
  unfold logStatus. intros H. injection H as H.
  destruct disabled1, disabled2; simpl in H.
  - split; [|reflexivity]. apply string_app_inv_tail in H. exact H.
  - symmetry in H. apply status_suffixes_differ in H. contradiction.
  - apply status_suffixes_differ in H. contradiction.
  - split; [|reflexivity]. apply string_app_inv_tail in H. exact H.
Qed.

(** * The further properties on the sample environments *)
Module ExtraWitness.
Import Sample.
Local Open Scope string_scope.

(** X1: fetch errors alone leave the loop running. *)
Lemma loop_returns_only_on_cancellation_witness :
  exists st',
    snd (loop [failure calm deadline; success addressesFail "{}";
               failure calm unreachable]%list (initialState zero)) =
    Fetching st'.
Proof.
  apply (proj2 (loop_returns_only_on_cancellation
                  [failure calm deadline; success addressesFail "{}";
                   failure calm unreachable]%list (initialState zero))).
  reflexivity.
Defined.

(** X4: a failure after a cycle keeps the snapshot of that cycle. *)
Lemma previous_snapshot_is_the_last_fetched_witness :
  oldMetadata {| oldMetadata := "{a}"; webError := 1 |} =
  lastFetched zero
    [failure calm deadline; success calm "{a}"; failure calm deadline]%list.
Proof.
  apply (previous_snapshot_is_the_last_fetched
           [failure calm deadline; success calm "{a}";
            failure calm deadline]%list (initialState zero)).
  reflexivity.
Defined.

(** X9: the log entry of the addresses worker is the error of its
    [set()]. *)
Lemma cycle_logs_only_errors_that_occurred_witness :
  exists err,
    LogError setFailed = @LogError snapshot config err /\
    ((Worker Addresses = Watcher /\
      snd (parseConfig addressesFail configPath) = Some err /\
      os_IsNotExist err = false) \/
     (exists d,
        Worker Addresses = Worker d /\
        mgr_disabled addressesFail
          (build d "{}" zero (snd (loadConfig addressesFail))) = false /\
        mgr_diff addressesFail
          (build d "{}" zero (snd (loadConfig addressesFail))) = true /\
        mgr_set addressesFail
          (build d "{}" zero (snd (loadConfig addressesFail))) = Some err)).
Proof.
  apply (cycle_logs_only_errors_that_occurred "{}" zero addressesFail).
  - simpl. repeat (first [left; reflexivity | right]).
  - reflexivity.
Defined.

(** X10: an unreadable override file still gives every manager a
    configuration. *)
Lemma managers_never_get_a_nil_config_witness :
  exists file,
    snd (loadConfig unreadable) = Some file /\
    forall g ev m,
      In (g, ev) (runUpdate "{}" zero unreadable) -> calledOn ev = Some m ->
      configOf m = Some file.
Proof.
  apply (managers_never_get_a_nil_config "{}" zero unreadable []%list).
  reflexivity.
Defined.

(** X13: a list and the same list with an element repeated. *)
Lemma containsString_depends_on_the_elements_only_witness :
  containsString "stop" ["start"; "stop"]%list =
  containsString "stop" ["stop"; "start"; "stop"]%list.
Proof.
  apply (proj2 (containsString_depends_on_the_elements_only
                  "stop" ["start"; "stop"]%list
                  ["stop"; "start"; "stop"]%list)).
  - intros a Ha. simpl in *. tauto.
  - intros a Ha. simpl in *. tauto.
Defined.

(** X15: the same line, hence the same manager in the same state. *)
Lemma logStatus_line_is_unambiguous_witness :
  "accounts" = "accounts" /\ true = true.
Proof.
  apply (logStatus_line_is_unambiguous snapshot config
           "accounts" "accounts" true true).
  reflexivity.
Defined.
End ExtraWitness.
